(** * Verification of the web_classifier scraping core

    A shallow embedding of the scraping command line driver
    ([web_classifier/cli/scraper.py]), of the two scrapers it drives
    ([scrapers/curl_scraper.py], [scrapers/playwright_scraper.py]) and of
    the output dataclasses of [scrapers/base.py].

    Python objects that are mutated through a reference live in an explicit
    store; code that can raise returns a [result]; what the network, the
    browser and the multiplexer decide is an explicit environment value.  *)

From Stdlib Require Import ZArith List String Bool Lia.
From stdpp Require Import base option list gmap strings.

Local Open Scope string_scope.
Local Open Scope list_scope.

(** ** Python values, exceptions and results *)

Definition bytes := list Byte.byte.

(** The exceptions the modelled code can raise. *)
Inductive exn : Type :=
| AssertionError (msg : string)
| AttributeError
| KeyError (key : string)
| TypeError
| OSError
| JSONEncodeError
| PlaywrightError
| ValueError
| InvalidReference.

Inductive result (A : Type) : Type :=
| Ok (a : A)
| Raise (e : exn).
Arguments Ok {A} a.
Arguments Raise {A} e.

#[global] Instance result_ret : MRet result := fun A a => Ok a.
#[global] Instance result_bind : MBind result := fun A B k r =>
  match r with
  | Ok a => k a
  | Raise e => Raise e
  end.

(** ** The output dataclasses of [scrapers/base.py] *)

Record ResponseOutput := {
  resp_body : bytes;
  resp_date : Z;
  resp_headers : gmap string string;
  resp_status_code : Z;
  resp_reason : option string
}.

Record RequestOutput := {
  req_url : string;
  req_body : option string;
  req_cert : option (gmap string string);
  req_date : Z;
  req_headers : gmap string string;
  req_host : option string;
  req_method : option string;
  req_params : option string;
  req_path : option string;
  resource_type : option string;
  response : option ResponseOutput
}.

(** What a key of an [Output] (an [OrderedDict]) can hold in this program. *)
Inductive value : Type :=
| VNone
| VStr (s : string)
| VBytes (b : bytes)
| VDate (t : Z)
| VList (l : list RequestOutput)
| VTuple (l : list RequestOutput)
| VDict (d : gmap string string).

(** An [Output] object: the mapping from field names to values. *)
Abbreviation Output := (gmap string value).

(** [ScraperOutput(...)] called with keywords, as both scrapers do: the
    other fields than the first are not all [None], so
    [Output.__post_init__] takes its last branch and stores every dataclass
    field under its name. *)
Definition ScraperOutput (request_url : value) (url : string) (date : Z)
    (body : bytes) (requests : value) (screenshot full_screenshot : value)
    : Output :=
  <["request_url" := request_url]>
  (<["url" := VStr url]>
  (<["date" := VDate date]>
  (<["body" := VBytes body]>
  (<["requests" := requests]>
  (<["screenshot" := screenshot]>
  (<["full_screenshot" := full_screenshot]> ∅)))))).

(** ** [strip_data] of [cli/scraper.py] *)

(** [_r.resource_type in keep_request_type] *)
Definition kept (keep_request_type : list string) (_r : RequestOutput) : bool :=
  match resource_type _r with
  | Some t => bool_decide (t ∈ keep_request_type)
  | None => false
  end.

(** [[_r for _r in data[_var] if _r.resource_type in keep_request_type]]:
    a list or a tuple of requests is filtered into a list; [None] and a date
    are not iterable; the elements of a string, of bytes and the keys of a
    dict have no attribute [resource_type], so only the empty ones pass. *)
Definition filter_requests (keep_request_type : list string) (v : value) : result value :=
  match v with
  | VList l | VTuple l => Ok (VList (List.filter (kept keep_request_type) l))
  | VStr s => if bool_decide (s = "") then Ok (VList []) else Raise AttributeError
  | VBytes b => if bool_decide (b = []) then Ok (VList []) else Raise AttributeError
  | VDict d => if bool_decide (d = ∅) then Ok (VList []) else Raise AttributeError
  | VNone | VDate _ => Raise TypeError
  end.

(** The three [isinstance] branches that blank a field. *)
Definition blank (v : value) : value :=
  match v with
  | VList _ | VTuple _ => VList []
  | VDict _ => VDict ∅
  | _ => VNone
  end.

(** Truth value of a Python list. *)
Definition truthy {A} (l : list A) : bool :=
  match l with [] => false | _ => true end.

(** The body of the [for _var in to_strip] loop, on the dictionary [data]. *)
Definition strip_var (keep_request_type : list string) (_var : string)
    (data : Output) : result Output :=
  if bool_decide (_var = "requests") && truthy keep_request_type then
    match data !! _var with
    | None => Raise (KeyError _var)
    | Some v => v' ← filter_requests keep_request_type v; Ok (<[_var := v']> data)
    end
  else if bool_decide (is_Some (data !! _var)) then
    match data !! _var with
    | Some v => Ok (<[_var := blank v]> data)
    | None => Ok data
    end
  else Ok data.

(** The whole loop on the dictionary. *)
Fixpoint strip_fields (to_strip keep_request_type : list string)
    (data : Output) : result Output :=
  match to_strip with
  | [] => Ok data
  | _var :: rest =>
      data' ← strip_var keep_request_type _var data;
      strip_fields rest keep_request_type data'
  end.

(** The store of [Output] objects: [strip_data] receives a reference, updates
    the object behind it one field at a time and returns the same reference. *)
Definition loc := positive.
Abbreviation heap := (gmap loc Output).

Fixpoint strip_data (to_strip keep_request_type : list string) (data : loc)
    (h : heap) : result loc * heap :=
  match to_strip with
  | [] => (Ok data, h)
  | _var :: rest =>
      match h !! data with
      | None => (Raise InvalidReference, h)
      | Some d =>
          match strip_var keep_request_type _var d with
          | Ok d' => strip_data rest keep_request_type data (<[data := d']> h)
          | Raise e => (Raise e, h)
          end
      end
  end.

(** [Strip(Strip(page))]: the second call runs on what the first returned. *)
Definition strip_twice (to_strip keep_request_type : list string) (data : loc)
    (h : heap) : result loc * heap :=
  match strip_data to_strip keep_request_type data h with
  | (Ok data', h') => strip_data to_strip keep_request_type data' h'
  | (Raise e, h') => (Raise e, h')
  end.

(** A dictionary on which one more pass over the field changes nothing. *)
Definition stable (keep : list string) (v : string) (d : Output) : Prop :=
  strip_var keep v d = Ok d.

(** What one pass of the loop body does to the value of the field it names. *)
Definition field_op (keep : list string) (v : string) (x : value) : result value :=
  if bool_decide (v = "requests") && truthy keep then filter_requests keep x
  else Ok (blank x).

(** The requests a page holds, when its [requests] field is a sequence of
    requests, as it is in every page the scrapers build. *)
Definition requests_of (d : Output) : option (list RequestOutput) :=
  match d !! "requests" with
  | Some (VList l) | Some (VTuple l) => Some l
  | _ => None
  end.

Definition requests_at (h : heap) (data : loc) : option (list RequestOutput) :=
  h !! data ≫= requests_of.

(** Concrete inputs used by the examples below. *)
Definition req0 : RequestOutput :=
  {| req_url := "http://a.test/"; req_body := None; req_cert := None; req_date := 0;
     req_headers := ∅; req_host := None; req_method := None; req_params := None;
     req_path := None; resource_type := Some "image"; response := None |}.

Definition page0 : Output :=
  ScraperOutput (VStr "http://a.test/") "http://a.test/" 0 [Byte.x68; Byte.x69]
    (VTuple [req0]) VNone VNone.

Definition heap0 : heap := {[ 1%positive := page0 ]}.

(** ** The environment of a run *)

(** [os.linesep] depends on the platform. *)
Inductive os : Type := posix | nt.

Definition linesep (o : os) : bytes :=
  match o with
  | posix => [Byte.x0a]
  | nt => [Byte.x0d; Byte.x0a]
  end.

(** What [urlparse] gives for an address. *)
Record ParseResult := {
  scheme : string;
  hostname : string;
  port : option Z;
  netloc : string;
  params : string;
  path : string
}.

Section Engines.

(** [Output.to_json] (orjson), [urlparse], [certifi.where()] and the
    platform are given from outside. *)
Variable to_json : Output → result bytes.
Variable urlparse : string → ParseResult.
Variable certifi_where : string.
Variable os_name : os.

(** [convert_data] *)
Definition convert_data (data : Output) : result bytes := to_json data.

(** ** pycurl handles and [CurlScraper] ([scrapers/curl_scraper.py]) *)

Inductive curlopt : Type :=
| SHARE | PROXY | PROXYPORT | PROXYTYPE | PROXY_SSL_VERIFYHOST
| PROXY_SSL_VERIFYPEER | HTTPHEADER | COOKIEFILE | USERAGENT | SSL_VERIFYPEER
| SSL_VERIFYHOST | CAINFO | FOLLOWLOCATION | MAXREDIRS | CONNECTTIMEOUT
| NOSIGNAL | TIMEOUT | URL | WRITEDATA | HEADERFUNCTION.

Inductive optval : Type :=
| OInt (n : Z)
| OPort (n : option Z)
| OStr (s : string)
| OStrs (l : list string)
| OBool (b : bool)
| OShare
| OBuffer
| OCallback.

(** A [CurlWrapper]: the URL it was assigned, the buffer the body is written
    to and the header dictionary filled by [header_function]. *)
Record CurlWrapper := {
  cw_url : option string;
  cw_bytes : bytes;
  cw_headers : gmap string string
}.

(** A [pycurl.Curl] handle: the [setopt] calls made on it in order, the
    wrapper stored in its attribute [cw], and whether it was closed. *)
Record Curl := {
  setopts : list (curlopt * optval);
  cw : option CurlWrapper;
  closed : bool
}.

Definition new_curl : Curl := {| setopts := []; cw := None; closed := false |}.

Definition setopt (name : curlopt) (v : optval) (c : Curl) : Curl :=
  {| setopts := setopts c ++ [(name, v)]; cw := cw c; closed := closed c |}.

Definition set_cw (w : CurlWrapper) (c : Curl) : Curl :=
  {| setopts := setopts c; cw := Some w; closed := closed c |}.

Definition close_curl (c : Curl) : Curl :=
  {| setopts := setopts c; cw := cw c; closed := true |}.

(** The fields of a [CurlScraper] object. *)
Record CurlScraper := {
  timeout : option Z;
  headers : option (list string);
  user_agent : option string;
  proxy : option string;
  cookie_file : option string;
  allow_redirects : bool;
  max_redirects : Z;
  no_ssl : bool;
  curl_options : list (curlopt * optval)
}.

Definition _add_curl_option (name : curlopt) (v : optval) (self : CurlScraper)
    : CurlScraper :=
  {| timeout := timeout self; headers := headers self;
     user_agent := user_agent self; proxy := proxy self;
     cookie_file := cookie_file self; allow_redirects := allow_redirects self;
     max_redirects := max_redirects self; no_ssl := no_ssl self;
     curl_options := curl_options self ++ [(name, v)] |}.

(** Truth value of an optional string and of an optional list. *)
Definition str_truthy (s : option string) : bool :=
  match s with Some s => negb (bool_decide (s = "")) | None => false end.

Definition opt_truthy {A} (l : option (list A)) : bool :=
  match l with Some l => truthy l | None => false end.

(** The part of [setup] after the proxy block. *)
Definition setup_rest (self : CurlScraper) : CurlScraper :=
  let self := if opt_truthy (headers self)
              then _add_curl_option HTTPHEADER (OStrs (default [] (headers self))) self
              else self in
  let self := match cookie_file self with
              | Some f => _add_curl_option COOKIEFILE (OStr f) self
              | None => self
              end in
  let self := if str_truthy (user_agent self)
              then _add_curl_option USERAGENT (OStr (default "" (user_agent self))) self
              else self in
  let self := if no_ssl self
              then _add_curl_option SSL_VERIFYHOST (OInt 0)
                     (_add_curl_option SSL_VERIFYPEER (OInt 0) self)
              else _add_curl_option CAINFO (OStr certifi_where)
                     (_add_curl_option SSL_VERIFYHOST (OInt 2)
                       (_add_curl_option SSL_VERIFYPEER (OInt 1) self)) in
  let self := if allow_redirects self
              then _add_curl_option MAXREDIRS (OInt (max_redirects self))
                     (_add_curl_option FOLLOWLOCATION (OBool (allow_redirects self)) self)
              else self in
  let self := _add_curl_option NOSIGNAL (OInt 1)
                (_add_curl_option CONNECTTIMEOUT (OInt 30) self) in
  match timeout self with
  | Some t => _add_curl_option TIMEOUT (OInt t) self
  | None => self
  end.

(** [CurlScraper.setup]: with a proxy, the third proxy statement reads the
    attribute [setopt] of the bound method [_add_curl_option], which raises. *)
Definition setup (self : CurlScraper) : result unit * CurlScraper :=
  let self := _add_curl_option SHARE OShare self in
  if str_truthy (proxy self) then
    let parsed_proxy := urlparse (default "" (proxy self)) in
    let self := _add_curl_option PROXY
                  (OStr (scheme parsed_proxy ++ "://" ++ hostname parsed_proxy)) self in
    let self := _add_curl_option PROXYPORT (OPort (port parsed_proxy)) self in
    (Raise AttributeError, self)
  else (Ok (), setup_rest self).

(** [CurlScraper._curl_instance] *)
Definition _curl_instance (self : CurlScraper) : Curl :=
  fold_left (λ c opt, setopt opt.1 opt.2 c) (curl_options self) new_curl.

(** [CurlWrapper(c)] followed by [assign(url)], seen from the handle. *)
Definition new_wrapper : CurlWrapper :=
  {| cw_url := None; cw_bytes := []; cw_headers := ∅ |}.

Definition assign (url : string) (c : Curl) : CurlWrapper * Curl :=
  let self := {| cw_url := Some url; cw_bytes := cw_bytes new_wrapper;
                 cw_headers := cw_headers new_wrapper |} in
  (self, setopt HEADERFUNCTION OCallback
           (setopt WRITEDATA OBuffer (setopt URL (OStr url) c))).

(** What libcurl reports for a finished transfer and what it wrote, through
    [WRITEDATA] and [HEADERFUNCTION], into the wrapper; [clock] is the time
    read by [datetime.now()]. *)
Record transfer := {
  effective_url : string;
  certinfo : list (string * string);
  received : bytes;
  received_headers : gmap string string;
  http_code : Z;
  clock : Z
}.

Definition deliver (t : transfer) (self : CurlWrapper) : CurlWrapper :=
  {| cw_url := cw_url self; cw_bytes := cw_bytes self ++ received t;
     cw_headers := received_headers t ∪ cw_headers self |}.

(** [CurlWrapper.get_result] *)
Definition get_result (self : CurlWrapper) (t : transfer) : Output :=
  let _current_url := effective_url t in
  let certinfo_dict :=
    fold_left (λ (d : gmap string string) entry, <[entry.1 := entry.2]> d)
              (certinfo t) ∅ in
  let _body := cw_bytes self in
  let _request :=
    {| req_url := _current_url; req_body := None; req_cert := Some certinfo_dict;
       req_date := clock t; req_headers := ∅; req_host := None;
       req_method := None; req_params := None; req_path := None;
       resource_type := None;
       response := Some {| resp_body := _body; resp_date := clock t;
                           resp_headers := cw_headers self;
                           resp_status_code := http_code t;
                           resp_reason := None |} |} in
  ScraperOutput (from_option VStr VNone (cw_url self)) _current_url (clock t)
    _body (VTuple [_request]) VNone VNone.

(** ** The batch driver [_curl_main] ([cli/scraper.py]) *)

(** The command line arguments the driver reads. *)
Record kwargs := {
  kw_num_conn : Z;
  kw_strip_data : list string;
  kw_keep_content : list string;
  kw_timeout : option Z;
  kw_headers : option (list string);
  kw_user_agent : option string;
  kw_proxy : option string;
  kw_cookie_file : option string;
  kw_allow_redirects : bool;
  kw_max_redirects : Z;
  kw_no_ssl : bool
}.

(** The constructor of [CurlScraper], called on the arguments: it stores the settings and starts
    with no curl option. *)
Definition CurlScraper_init (kw : kwargs) : CurlScraper :=
  {| timeout := kw_timeout kw; headers := kw_headers kw;
     user_agent := kw_user_agent kw; proxy := kw_proxy kw;
     cookie_file := kw_cookie_file kw; allow_redirects := kw_allow_redirects kw;
     max_redirects := kw_max_redirects kw; no_ssl := kw_no_ssl kw;
     curl_options := [] |}.

(** One answer of [m.info_read()]: the number of messages still queued, the
    handles whose transfer succeeded and those whose transfer failed.
    Handles are named by their position in [m.handles]. *)
Record info_reply := {
  num_q : nat;
  ok_list : list (nat * transfer);
  err_list : list (nat * Z * string)
}.

(** The state the main loop works on.  [handles] is [m.handles]; the free
    list and the multi stack hold positions in it, because they share the
    handle objects with it.  [added] and [reads] log the [add_handle] calls
    and the answers of [info_read]. *)
Record loop_state := {
  handles : list Curl;
  stack : list nat;
  added : list (nat * string);
  reads : list info_reply;
  queue : list string;
  freelist : list nat;
  num_processed : nat;
  output_fp : bytes;
  pbar : nat
}.

(** [l.pop()]: the last element. *)
Definition list_pop {A} (l : list A) : option (A * list A) :=
  match reverse l with
  | [] => None
  | x :: r => Some (x, reverse r)
  end.

(** [cw = CurlWrapper(c); cw.assign(url); c.cw = cw; m.add_handle(c)] after
    the two pops have left [q'] and [fl']. *)
Definition add_job (url : string) (c : nat) (q' : list string) (fl' : list nat)
    (st : loop_state) : loop_state :=
  {| handles := alter (λ h, set_cw (assign url h).1 (assign url h).2) c (handles st);
     stack := stack st ++ [c];
     added := added st ++ [(c, url)];
     reads := reads st;
     queue := q';
     freelist := fl';
     num_processed := num_processed st;
     output_fp := output_fp st;
     pbar := pbar st |}.

(** [while queue and freelist: ...], called with [q = queue st]. *)
Fixpoint fill (q : list string) (st : loop_state) : loop_state :=
  match q with
  | [] => st
  | url :: q' =>
      match list_pop (freelist st) with
      | None => st
      | Some (c, fl') => fill q' (add_job url c q' fl' st)
      end
  end.

(** [m.remove_handle(c)] *)
Definition remove_handle (c : nat) (st : loop_state) : loop_state :=
  {| handles := handles st;
     stack := List.filter (λ c', negb (Nat.eqb c' c)) (stack st);
     added := added st; reads := reads st; queue := queue st;
     freelist := freelist st; num_processed := num_processed st;
     output_fp := output_fp st; pbar := pbar st |}.

(** The two [output_fp.write] calls, [freelist.append(c)] and
    [pbar.update(1)] of a successful transfer. *)
Definition emit (c : nat) (data : bytes) (st : loop_state) : loop_state :=
  {| handles := handles st; stack := stack st; added := added st;
     reads := reads st; queue := queue st;
     freelist := freelist st ++ [c];
     num_processed := num_processed st;
     output_fp := (output_fp st ++ data) ++ linesep os_name;
     pbar := S (pbar st) |}.

(** [freelist.append(c)] and [pbar.update(1)] of a failed transfer. *)
Definition release (c : nat) (st : loop_state) : loop_state :=
  {| handles := handles st; stack := stack st; added := added st;
     reads := reads st; queue := queue st;
     freelist := freelist st ++ [c];
     num_processed := num_processed st;
     output_fp := output_fp st;
     pbar := S (pbar st) |}.

(** A step of the driver either goes on or is left by an exception. *)
Inductive step_result : Type :=
| Next (st : loop_state)
| Abort (e : exn) (st : loop_state).

(** The body of [for c in ok_list].  The multiplexer names a handle by its
    position in [m.handles]; a position outside of it stands for no Python
    object and stops the run with [InvalidReference]. *)
Definition finish_ok (to_strip keep : list string) (item : nat * transfer)
    (st : loop_state) : step_result :=
  match handles st !! item.1 with
  | None => Abort InvalidReference st
  | Some c =>
      match cw c with
      | None => Abort AttributeError st
      | Some w =>
          let data := get_result (deliver item.2 w) item.2 in
          let st := remove_handle item.1 st in
          match strip_fields to_strip keep data with
          | Raise e => Abort e st
          | Ok data =>
              match convert_data data with
              | Raise e => Abort e st
              | Ok data => Next (emit item.1 data st)
              end
          end
      end
  end.

Fixpoint for_ok_list (to_strip keep : list string) (l : list (nat * transfer))
    (st : loop_state) : step_result :=
  match l with
  | [] => Next st
  | item :: l' =>
      match finish_ok to_strip keep item st with
      | Next st' => for_ok_list to_strip keep l' st'
      | Abort e st' => Abort e st'
      end
  end.

(** The body of [for c, errno, errmsg in err_list]. *)
Definition finish_err (st : loop_state) (item : nat * Z * string) : loop_state :=
  release item.1.1 (remove_handle item.1.1 st).

(** An answer of [info_read] is logged, and after both [for] loops
    [num_processed] grows by the lengths of the two lists. *)
Definition log_read (r : info_reply) (st : loop_state) : loop_state :=
  {| handles := handles st; stack := stack st; added := added st;
     reads := reads st ++ [r]; queue := queue st; freelist := freelist st;
     num_processed := num_processed st; output_fp := output_fp st;
     pbar := pbar st |}.

Definition add_processed (n : nat) (st : loop_state) : loop_state :=
  {| handles := handles st; stack := stack st; added := added st;
     reads := reads st; queue := queue st; freelist := freelist st;
     num_processed := num_processed st + n; output_fp := output_fp st;
     pbar := pbar st |}.

Inductive loop_result : Type :=
| LoopDone (st : loop_state)
| LoopAbort (e : exn) (st : loop_state)
| LoopPending (st : loop_state).

(** The main loop from the first [info_read] of a round on, run against the
    answers [net] of the multiplexer ([m.perform] is repeated before it as
    long as libcurl asks for it and changes nothing that is modelled here).
    An answer with [num_q = 0] leaves the
    inner [while 1]; then [m.select] returns, the outer condition
    [num_processed < num_urls] is tested, and a new round refills the multi
    stack.  When the answers run out the loop is still running. *)
Fixpoint main_loop (to_strip keep : list string) (num_urls : nat)
    (net : list info_reply) (st : loop_state) : loop_result :=
  match net with
  | [] => LoopPending st
  | r :: net' =>
      match for_ok_list to_strip keep (ok_list r) (log_read r st) with
      | Abort e st' => LoopAbort e st'
      | Next st1 =>
          let st2 := fold_left finish_err (err_list r) st1 in
          let st3 := add_processed (length (ok_list r) + length (err_list r)) st2 in
          if bool_decide (num_q r = 0) then
            if bool_decide (num_processed st3 < num_urls)
            then main_loop to_strip keep num_urls net' (fill (queue st3) st3)
            else LoopDone st3
          else main_loop to_strip keep num_urls net' st3
      end
  end.

(** What can be observed of a run from outside. *)
Record world := {
  w_handles : list Curl;
  w_added : list (nat * string);
  w_reads : list info_reply;
  w_output : option bytes
}.

Definition world0 : world :=
  {| w_handles := []; w_added := []; w_reads := []; w_output := None |}.

Inductive outcome : Type :=
| Returned (w : world)
| Raised (e : exn) (w : world)
| Pending (w : world).

Definition world_of (o : outcome) : world :=
  match o with Returned w | Raised _ w | Pending w => w end.

Definition observe (st : loop_state) : world :=
  {| w_handles := handles st; w_added := added st; w_reads := reads st;
     w_output := Some (output_fp st) |}.

(** [fp.truncate(size)] on a file written sequentially. *)
Definition truncate (fp : bytes) (size : Z) : result bytes :=
  if bool_decide (size < 0)%Z then Raise OSError
  else Ok (take (Z.to_nat size) fp
           ++ replicate (Z.to_nat size - length fp) Byte.x00).

(** [fp.tell()] once everything was written at the end. *)
Definition tell (fp : bytes) : Z := Z.of_nat (length fp).

(** The lines after [# Cleanup]. *)
Definition cleanup (st : loop_state) : outcome :=
  let hs := map close_curl (handles st) in
  match truncate (output_fp st)
          (tell (output_fp st) - Z.of_nat (length (linesep os_name))) with
  | Raise e =>
      Raised e {| w_handles := hs; w_added := added st; w_reads := reads st;
                  w_output := Some (output_fp st) |}
  | Ok fp =>
      Returned {| w_handles := hs; w_added := added st; w_reads := reads st;
                  w_output := Some fp |}
  end.

(** [for _ in range(num_conn): m.handles.append(scrapper._curl_instance())] *)
Definition allocate (scrapper : CurlScraper) (num_conn : Z) : list Curl :=
  replicate (Z.to_nat num_conn) (_curl_instance scrapper).

(** [_curl_main], on the URLs read by [get_urls] and against the answers
    [net] of the multiplexer. *)
Definition _curl_main (kw : kwargs) (urls : list string)
    (net : list info_reply) : outcome :=
  let scrapper := CurlScraper_init kw in
  let num_conn := kw_num_conn kw in
  if negb (bool_decide (1 ≤ num_conn)%Z && bool_decide (num_conn ≤ 10000)%Z)
  then Raised (AssertionError "invalid number of concurrent connections") world0
  else
    let to_strip := kw_strip_data kw in
    let content_to_keep := kw_keep_content kw in
    let num_urls := length urls in
    let num_conn := Z.min num_conn (Z.of_nat num_urls) in
    let m_handles := allocate scrapper num_conn in
    let st := {| handles := m_handles; stack := []; added := []; reads := [];
                 queue := urls; freelist := seq 0 (length m_handles);
                 num_processed := 0; output_fp := []; pbar := 0 |} in
    let looped :=
      if bool_decide (num_processed st < num_urls)
      then main_loop to_strip content_to_keep num_urls net (fill (queue st) st)
      else LoopDone st in
    match looped with
    | LoopDone st => cleanup st
    | LoopAbort e st => Raised e (observe st)
    | LoopPending st => Pending (observe st)
    end.

(** The record written for a job: the result of the transfer, stripped and
    converted. *)
Definition record_of (kw : kwargs) (url : string) (t : transfer) : result bytes :=
  data ← strip_fields (kw_strip_data kw) (kw_keep_content kw)
           (get_result (deliver t (assign url new_curl).1) t);
  convert_data data.

(** Records separated by one delimiter, with none after the last. *)
Fixpoint join_records (sep : bytes) (recs : list bytes) : bytes :=
  match recs with
  | [] => []
  | r :: rest =>
      match rest with
      | [] => r
      | _ => r ++ sep ++ join_records sep rest
      end
  end.

(** The settings of a run started with the defaults of the command line. *)
Definition kw0 : kwargs :=
  {| kw_num_conn := 10; kw_strip_data := []; kw_keep_content := [];
     kw_timeout := Some 3000%Z; kw_headers := None; kw_user_agent := None;
     kw_proxy := None; kw_cookie_file := Some ""; kw_allow_redirects := true;
     kw_max_redirects := 3; kw_no_ssl := false |}.

(** ** [PlaywrightScraper] ([scrapers/playwright_scraper.py]) *)

(** The settings [scrape] reads. *)
Record PlaywrightScraper := {
  implicit_wait : Z;
  clear_cookies : bool;
  with_requests : bool
}.

(** A playwright response and request, as the browser hands them over:
    every awaited call either returns or raises. *)
Record pw_response := {
  status : Z;
  status_text : string;
  body : result bytes;
  all_headers : result (gmap string string);
  security_details : result (option (gmap string string))
}.

Record pw_request := {
  url : string;
  post_data : option string;
  request_headers : result (gmap string string);
  method : string;
  request_resource_type : string;
  get_response : result (option pw_response);
  request_clock : Z
}.

(** [await _response.security_details()] where [_response] may be [None]. *)
Definition await_security_details (_response : option pw_response)
    : result (option (gmap string string)) :=
  match _response with
  | None => Raise AttributeError
  | Some r => security_details r
  end.

(** [PlaywrightScraper.request_handler] *)
Definition request_handler (request : pw_request) : result RequestOutput :=
  _response ← get_response request;
  _cert ← await_security_details _response;
  captured ←
    match _response with
    | Some r =>
        if bool_decide (status r = 200%Z) then
          b ← body r;
          h ← all_headers r;
          let response :=
            {| resp_body := b; resp_date := request_clock request;
               resp_headers := h; resp_status_code := status r;
               resp_reason := Some (status_text r) |} in
          _cert ← security_details r;
          Ok (Some response, _cert)
        else Ok (None, Some ∅)
    | None => Ok (None, Some ∅)
    end;
  let request_url := urlparse (url request) in
  h ← request_headers request;
  Ok {| req_url := url request; req_body := post_data request;
        req_cert := captured.2; req_date := request_clock request;
        req_headers := h; req_host := Some (netloc request_url);
        req_method := Some (method request);
        req_params := Some (params request_url);
        req_path := Some (path request_url);
        resource_type := Some (request_resource_type request);
        response := captured.1 |}.

(** The inner [request_handler] of [scrape]: a request that was handled is
    appended to [_requests], an exception is logged and dropped. *)
Definition on_requestfinished (_requests : list RequestOutput)
    (request : pw_request) : list RequestOutput :=
  match request_handler request with
  | Ok request => _requests ++ [request]
  | Raise e => _requests
  end.

(** What the browser does with the page of one job: the outcome of every
    awaited call and the exchanges that finish during the navigation. *)
Record page_env := {
  route : result unit;
  wait_for_timeout : result unit;
  finished : list pw_request;
  goto : result unit;
  content : result string;
  page_url : string;
  screenshot : result bytes;
  full_screenshot : result bytes;
  clear : result unit;
  now : Z
}.

(** The browser context: how many pages are open and how often the cookies
    were cleared. *)
Record context := { open_pages : nat; cookie_clears : nat }.

Definition new_page (c : context) : context :=
  {| open_pages := S (open_pages c); cookie_clears := cookie_clears c |}.

Definition close_page (c : context) : context :=
  {| open_pages := pred (open_pages c); cookie_clears := cookie_clears c |}.

Definition clear_context (c : context) : context :=
  {| open_pages := open_pages c; cookie_clears := S (cookie_clears c) |}.

(** [PlaywrightScraper.scrape], from [page.route] on, in a context where the
    page is already open. *)
Definition scrape_page (self : PlaywrightScraper) (url : string)
    (env : page_env) (c : context) : result Output * context :=
  match route env with
  | Raise e => (Raise e, c)
  | Ok _ =>
  match (if bool_decide (implicit_wait self = 0%Z) then Ok ()
         else wait_for_timeout env) with
  | Raise e => (Raise e, c)
  | Ok _ =>
  let _requests :=
    if with_requests self then fold_left on_requestfinished (finished env) []
    else [] in
  match goto env with
  | Raise e => (Raise e, close_page c)
  | Ok _ =>
  match content env with
  | Raise e => (Raise e, c)
  | Ok _body =>
  let _body := list_byte_of_string _body in
  let _current_url := page_url env in
  match screenshot env with
  | Raise e => (Raise e, c)
  | Ok _screenshot =>
  match full_screenshot env with
  | Raise e => (Raise e, c)
  | Ok _full_screenshot =>
  let result := ScraperOutput (VStr url) _current_url (now env) _body
                  (VList _requests) (VBytes _screenshot)
                  (VBytes _full_screenshot) in
  match (if clear_cookies self then clear env else Ok ()) with
  | Raise e => (Raise e, c)
  | Ok _ =>
      let c := if clear_cookies self then clear_context c else c in
      (Ok result, close_page c)
  end end end end end end end.

(** [PlaywrightScraper.scrape]: [self.context.new_page()] opens the page
    (a browser that cannot open one is outside of this model, and so is a
    [page.close()] that raises). *)
Definition scrape (self : PlaywrightScraper) (url : string) (env : page_env)
    (c : context) : result Output * context :=
  scrape_page self url env (new_page c).

(** ** The page-pool driver [_playwright_main] ([cli/scraper.py]) *)

(** What the browser does for each URL. *)
Variable browse : string → page_env.

(** [_playwright_scrape_task] *)
Definition _playwright_scrape_task (scraper : PlaywrightScraper) (url : string)
    (to_strip to_keep : list string) (c : context) : result bytes * context :=
  match scrape scraper url (browse url) c with
  | (Raise e, c) => (Raise e, c)
  | (Ok data, c) =>
      (data ← strip_fields to_strip to_keep data; convert_data data, c)
  end.

(** An [asyncio.Queue]: its items ([None] is the stop marker) and its count
    of unfinished tasks, which [put] increments and [task_done] decrements. *)
Record aqueue := { items : list (option string); unfinished_tasks : nat }.

Definition put (q : aqueue) (x : option string) : aqueue :=
  {| items := items q ++ [x]; unfinished_tasks := S (unfinished_tasks q) |}.

(** Where a worker task stands: each constructor is a point at which
    [_playwright_worker] is suspended in an [await], or has left. *)
Inductive worker : Type :=
| Idle
| Scraping (url : string)
| WritingData (data : bytes)
| WritingSep
| Exited
| Failed (e : exn).

(** Where [_playwright_main] stands: before the task group body, in
    [await job_queue.join()], leaving the task group, and after it. *)
Inductive main_pc : Type := MStart | MJoin | MExit | MDone.

Record pstate := {
  jobs : aqueue;
  workers : list worker;
  main : main_pc;
  fp : bytes;
  browser : context;
  progress : nat
}.

Definition pstate0 : pstate :=
  {| jobs := {| items := []; unfinished_tasks := 0 |}; workers := [];
     main := MStart; fp := [];
     browser := {| open_pages := 0; cookie_clears := 0 |}; progress := 0 |}.

Definition set_items (l : list (option string)) (s : pstate) : pstate :=
  {| jobs := {| items := l; unfinished_tasks := unfinished_tasks (jobs s) |};
     workers := workers s; main := main s; fp := fp s; browser := browser s;
     progress := progress s |}.

Definition set_browser (c : context) (s : pstate) : pstate :=
  {| jobs := jobs s; workers := workers s; main := main s; fp := fp s;
     browser := c; progress := progress s |}.

Definition write (data : bytes) (s : pstate) : pstate :=
  {| jobs := jobs s; workers := workers s; main := main s; fp := fp s ++ data;
     browser := browser s; progress := progress s |}.

Definition set_worker (i : nat) (w : worker) (s : pstate) : pstate :=
  {| jobs := jobs s; workers := <[i := w]> (workers s); main := main s;
     fp := fp s; browser := browser s; progress := progress s |}.

Definition set_main (pc : main_pc) (s : pstate) : pstate :=
  {| jobs := jobs s; workers := workers s; main := pc; fp := fp s;
     browser := browser s; progress := progress s |}.

(** The [finally] block of the worker: [pbar.update(1)], then
    [queue.task_done()], which raises when nothing is unfinished. *)
Definition finally (s : pstate) : worker * pstate :=
  let s := {| jobs := jobs s; workers := workers s; main := main s; fp := fp s;
              browser := browser s; progress := S (progress s) |} in
  match unfinished_tasks (jobs s) with
  | O => (Failed ValueError, s)
  | S n =>
      (Idle, {| jobs := {| items := items (jobs s); unfinished_tasks := n |};
                workers := workers s; main := main s; fp := fp s;
                browser := browser s; progress := progress s |})
  end.

(** One step of [_playwright_worker], from one suspension to the next;
    [None] when the worker waits or has left.  On the stop marker the worker
    returns before it enters the [try]. *)
Definition worker_step (scraper : PlaywrightScraper)
    (to_strip content_to_keep : list string) (w : worker) (s : pstate)
    : option (worker * pstate) :=
  match w with
  | Idle =>
      match items (jobs s) with
      | [] => None
      | None :: rest => Some (Exited, set_items rest s)
      | Some url :: rest => Some (Scraping url, set_items rest s)
      end
  | Scraping url =>
      match _playwright_scrape_task scraper url to_strip content_to_keep
              (browser s) with
      | (Ok data, c) => Some (WritingData data, set_browser c s)
      | (Raise e, c) => Some (finally (set_browser c s))
      end
  | WritingData data => Some (WritingSep, write data s)
  | WritingSep => Some (finally (write (linesep os_name) s))
  | Exited | Failed _ => None
  end.

Definition has_left (w : worker) : bool :=
  match w with Exited | Failed _ => true | _ => false end.

Definition has_failed (w : worker) : bool :=
  match w with Failed _ => true | _ => false end.

(** One step of [_playwright_main].  The body of the task group creates the
    workers and puts the URLs and the stop markers without being suspended;
    [join] returns when no task is unfinished; a failed worker aborts the
    group; leaving the group waits for the workers; the error of the final
    [truncate] is swallowed by the [except*] clause. *)
Definition main_step (urls : list string) (num_pages : Z) (s : pstate)
    : option pstate :=
  match main s with
  | MStart =>
      let n := Z.to_nat num_pages in
      Some {| jobs := fold_left put (replicate n None)
                        (fold_left put (map Some urls) (jobs s));
              workers := workers s ++ replicate n Idle;
              main := MJoin; fp := fp s; browser := browser s;
              progress := progress s |}
  | MJoin =>
      if bool_decide (unfinished_tasks (jobs s) = 0) || existsb has_failed (workers s)
      then Some (set_main MExit s) else None
  | MExit =>
      if forallb has_left (workers s) then
        if existsb has_failed (workers s) then Some (set_main MDone s)
        else
          match truncate (fp s)
                  (tell (fp s) - Z.of_nat (length (linesep os_name))) with
          | Ok fp' =>
              Some {| jobs := jobs s; workers := workers s; main := MDone;
                      fp := fp'; browser := browser s; progress := progress s |}
          | Raise _ => Some (set_main MDone s)
          end
      else None
  | MDone => None
  end.

(** The tasks of the event loop and a step of the one that is scheduled. *)
Inductive task : Type := Main | Worker (i : nat).

Definition pstep (scraper : PlaywrightScraper) (to_strip content_to_keep : list string)
    (urls : list string) (num_pages : Z) (t : task) (s : pstate) : option pstate :=
  match t with
  | Main => main_step urls num_pages s
  | Worker i =>
      match workers s !! i with
      | None => None
      | Some w =>
          match worker_step scraper to_strip content_to_keep w s with
          | None => None
          | Some (w', s') => Some (set_worker i w' s')
          end
      end
  end.

(** A run under a schedule: a task that cannot move is skipped. *)
Definition exec (scraper : PlaywrightScraper) (to_strip content_to_keep : list string)
    (urls : list string) (num_pages : Z) (sched : list task) (s : pstate) : pstate :=
  fold_left (λ s t, default s (pstep scraper to_strip content_to_keep urls num_pages t s))
            sched s.

(** No task can move. *)
Definition stuck (scraper : PlaywrightScraper) (to_strip content_to_keep : list string)
    (urls : list string) (num_pages : Z) (s : pstate) : Prop :=
  ∀ t, pstep scraper to_strip content_to_keep urls num_pages t s = None.

(** The workers that hold a job, and the jobs still in the queue. *)
Definition busy (w : worker) : bool :=
  match w with Scraping _ | WritingData _ | WritingSep => true | _ => false end.

Definition count_busy (ws : list worker) : nat := length (List.filter busy ws).

Definition count_jobs (l : list (option string)) : nat :=
  length (List.filter (λ x : option string, bool_decide (is_Some x)) l).

(** The handles seen when the loop stops, however it stops. *)
Definition loop_handles (r : loop_result) : list Curl :=
  match r with LoopDone st | LoopAbort _ st | LoopPending st => handles st end.

(** Every wrapper stored in a handle was made for one of the URLs of the
    run, and so was every URL still queued. *)
Definition handle_ok (urls : list string) (c : Curl) : Prop :=
  ∀ w, cw c = Some w → ∃ url, url ∈ urls ∧ w = (assign url new_curl).1.

Definition jobs_known (urls : list string) (st : loop_state) : Prop :=
  Forall (handle_ok urls) (handles st) ∧ Forall (λ u, u ∈ urls) (queue st).

(** [recs] are the records of the successful transfers [oks], in order. *)
Definition written (kw : kwargs) (urls : list string)
    (oks : list (nat * transfer)) (recs : list bytes) : Prop :=
  Forall2 (λ item rec, ∃ url, url ∈ urls ∧ record_of kw url item.2 = Ok rec)
          oks recs.

(** What the loop writes: every record followed by the delimiter. *)
Definition lines (sep : bytes) (recs : list bytes) : bytes :=
  concat (map (λ r, r ++ sep) recs).

(** Concrete browser behaviours used by the examples below. *)
Definition response0 (code : Z) : pw_response :=
  {| status := code; status_text := "OK"; body := Ok [Byte.x68; Byte.x69];
     all_headers := Ok ∅; security_details := Ok None |}.

Definition request0 (r : option pw_response) : pw_request :=
  {| url := "http://a.test/logo.png"; post_data := None;
     request_headers := Ok ∅; method := "GET";
     request_resource_type := "image"; get_response := Ok r;
     request_clock := 0 |}.

Definition env_ok : page_env :=
  {| route := Ok (); wait_for_timeout := Ok ();
     finished := [request0 (Some (response0 200))];
     goto := Ok (); content := Ok "<html></html>";
     page_url := "http://a.test/"; screenshot := Ok [Byte.x01];
     full_screenshot := Ok [Byte.x02]; clear := Ok (); now := 0 |}.

Definition env_goto_fails : page_env :=
  {| route := Ok (); wait_for_timeout := Ok (); finished := [];
     goto := Raise PlaywrightError; content := Ok "";
     page_url := "about:blank"; screenshot := Ok []; full_screenshot := Ok [];
     clear := Ok (); now := 0 |}.

Definition env_content_fails : page_env :=
  {| route := Ok (); wait_for_timeout := Ok (); finished := [];
     goto := Ok (); content := Raise PlaywrightError;
     page_url := "http://a.test/"; screenshot := Ok [Byte.x01];
     full_screenshot := Ok [Byte.x02]; clear := Ok (); now := 0 |}.

Definition scraper0 : PlaywrightScraper :=
  {| implicit_wait := 0; clear_cookies := true; with_requests := true |}.

Definition context0 : context := {| open_pages := 0; cookie_clears := 0 |}.

(** A concrete environment for the examples: a serializer that writes the
    final URL of the page, a parser that only knows one host, a browser
    that serves every URL alike, and answers of the multiplexer. *)
Definition to_json0 (data : Output) : result bytes :=
  match data !! "url" with
  | Some (VStr u) => Ok (list_byte_of_string u)
  | _ => Raise JSONEncodeError
  end.

Definition urlparse0 (u : string) : ParseResult :=
  {| scheme := "http"; hostname := "a.test"; port := None; netloc := "a.test";
     params := ""; path := "/" |}.

Definition browse0 (u : string) : page_env := env_ok.

Definition transfer0 : transfer :=
  {| effective_url := "http://a.test/"; certinfo := []; received := [Byte.x68; Byte.x69];
     received_headers := ∅; http_code := 200; clock := 0 |}.

Definition urls0 : list string := ["http://a.test/"; "http://closed.test:1/"].

(** One transfer succeeds and the other fails. *)
Definition net_mixed : list info_reply :=
  [ {| num_q := 0; ok_list := [(1, transfer0)];
       err_list := [(0, 7%Z, "Connection refused")] |} ].

(** Both transfers fail. *)
Definition net_failed : list info_reply :=
  [ {| num_q := 1; ok_list := []; err_list := [(0, 7%Z, "Connection refused")] |};
    {| num_q := 0; ok_list := []; err_list := [(1, 28%Z, "Timeout")] |} ].

(** One page and one URL, each task run as long as it can move. *)
Definition sched0 : list task :=
  [Main; Worker 0; Worker 0; Worker 0; Worker 0; Worker 0; Main].

(** What holds of the page-pool run from its first state on: either nothing
    has happened yet, or the main task is in [join] and the queue counts as
    unfinished every stop marker, every job a worker holds and every job
    still queued, and no worker has failed. *)
Definition join_inv (num_pages : Z) (s : pstate) : Prop :=
  s = pstate0
  ∨ (main s = MJoin
     ∧ unfinished_tasks (jobs s)
       = Z.to_nat num_pages + count_busy (workers s) + count_jobs (items (jobs s))
     ∧ existsb has_failed (workers s) = false).

(** What holds of a page-pool run without pages: there is no worker,
    nothing is written, and the main task gets past [join] only when there
    is no URL. *)
Definition no_page_inv (urls : list string) (s : pstate) : Prop :=
  workers s = [] ∧ fp s = []
  ∧ (main s = MStart → s = pstate0)
  ∧ (main s ≠ MStart → unfinished_tasks (jobs s) = length urls)
  ∧ (main s = MExit ∨ main s = MDone → urls = []).

(** * Properties *)

(** ** Stripping *)

Lemma strip_var_lookup_ne keep v w d d' :
  strip_var keep v d = Ok d' → v ≠ w → d' !! w = d !! w.
Proof.
  unfold strip_var. intros H Hne.
  destruct (bool_decide (v = "requests") && truthy keep).
  - destruct (d !! v) as [x|]; [|discriminate].
    destruct (filter_requests keep x) as [x'|e]; simpl in H; [|discriminate].
    injection H as <-. by rewrite lookup_insert_ne.
  - case_bool_decide as Hin; [|by injection H as <-].
    destruct (d !! v) as [x|]; injection H as <-; [|done].
    by rewrite lookup_insert_ne.
Qed.

Lemma strip_var_dom keep v d d' :
  strip_var keep v d = Ok d' → dom d' = dom d.
Proof.
  unfold strip_var. intros H.
  assert (Hdom : ∀ x y, d !! v = Some x → dom (<[v := y]> d) = dom d).
  { intros x y Hx. rewrite dom_insert_L.
    assert (v ∈ dom d) as Hin by (apply elem_of_dom; eauto).
    apply set_eq. intros k. rewrite elem_of_union, elem_of_singleton.
    split; [intros [->|]; done | auto]. }
  destruct (bool_decide (v = "requests") && truthy keep).
  - destruct (d !! v) as [x|] eqn:Hx; [|discriminate].
    destruct (filter_requests keep x) as [x'|e]; simpl in H; [|discriminate].
    injection H as <-. eauto.
  - case_bool_decide as Hin; [|by injection H as <-].
    destruct (d !! v) as [x|] eqn:Hx; injection H as <-; eauto.
Qed.

Lemma filter_requests_idem keep x x' :
  filter_requests keep x = Ok x' → filter_requests keep x' = Ok x'.
Proof.
  assert (Hnil : filter_requests keep (VList []) = Ok (VList [])) by done.
  destruct x; simpl; intros H; try discriminate;
    try (case_bool_decide; [injection H as <-; exact Hnil | discriminate]).
  - injection H as <-. simpl. f_equal. f_equal.
    induction l as [|r l IH]; simpl; [done|].
    destruct (kept keep r) eqn:Hr; simpl; rewrite ?Hr; by rewrite ?IH.
  - injection H as <-. simpl. f_equal. f_equal.
    induction l as [|r l IH]; simpl; [done|].
    destruct (kept keep r) eqn:Hr; simpl; rewrite ?Hr; by rewrite ?IH.
Qed.

Lemma blank_idem x : blank (blank x) = blank x.
Proof. by destruct x. Qed.

Lemma strip_var_stable keep v d d' :
  strip_var keep v d = Ok d' → stable keep v d'.
Proof.
  unfold stable, strip_var. intros H.
  destruct (bool_decide (v = "requests") && truthy keep).
  - destruct (d !! v) as [x|]; [|discriminate].
    destruct (filter_requests keep x) as [x'|e] eqn:Hf; simpl in H; [|discriminate].
    injection H as <-. rewrite lookup_insert_eq.
    rewrite (filter_requests_idem _ _ _ Hf). simpl. by rewrite insert_insert_eq.
  - case_bool_decide as Hin.
    + destruct (d !! v) as [x|]; injection H as <-.
      * rewrite lookup_insert_eq. rewrite bool_decide_true by eauto.
        by rewrite blank_idem, insert_insert_eq.
      * by destruct Hin.
    + injection H as <-. by rewrite bool_decide_false.
Qed.

Lemma stable_step keep v w d d' :
  stable keep v d → strip_var keep w d = Ok d' → stable keep v d'.
Proof.
  intros Hst Hw. destruct (decide (w = v)) as [->|Hne].
  { unfold stable in Hst. rewrite Hst in Hw. by injection Hw as <-. }
  pose proof (strip_var_lookup_ne _ _ _ _ _ Hw Hne) as Hv.
  unfold stable, strip_var in *. rewrite Hv.
  destruct (bool_decide (v = "requests") && truthy keep).
  - destruct (d !! v) as [x|] eqn:Hx; [|discriminate].
    destruct (filter_requests keep x) as [x'|e]; simpl in *; [|discriminate].
    injection Hst as Hst. f_equal. apply insert_id.
    rewrite Hv. rewrite <- Hst in Hx. by rewrite lookup_insert_eq in Hx.
  - destruct (d !! v) as [x|] eqn:Hx; [|by case_bool_decide].
    rewrite bool_decide_true in * by eauto.
    injection Hst as Hst. f_equal. apply insert_id.
    rewrite Hv. rewrite <- Hst in Hx. by rewrite lookup_insert_eq in Hx.
Qed.

Lemma stable_fields keep v f d d' :
  stable keep v d → strip_fields f keep d = Ok d' → stable keep v d'.
Proof.
  revert d. induction f as [|w f IH]; simpl; intros d Hst H.
  - by injection H as <-.
  - destruct (strip_var keep w d) as [d1|e] eqn:Hw; simpl in H; [|discriminate].
    eapply IH; [|done]. by eapply stable_step.
Qed.

Lemma strip_fields_stable keep f d d' :
  strip_fields f keep d = Ok d' → Forall (λ v, stable keep v d') f.
Proof.
  revert d. induction f as [|w f IH]; simpl; intros d H; [constructor|].
  destruct (strip_var keep w d) as [d1|e] eqn:Hw; simpl in H; [|discriminate].
  constructor; [|by eapply IH].
  eapply stable_fields; [|done]. by eapply strip_var_stable.
Qed.

Lemma stable_strip_fields keep f d :
  Forall (λ v, stable keep v d) f → strip_fields f keep d = Ok d.
Proof.
  induction 1 as [|w f Hw _ IH]; simpl; [done|].
  unfold stable in Hw. by rewrite Hw.
Qed.

Lemma strip_fields_idem keep f d d' :
  strip_fields f keep d = Ok d' → strip_fields f keep d' = Ok d'.
Proof. intros H. apply stable_strip_fields. by eapply strip_fields_stable. Qed.

(** How the run on the store relates to the run on the dictionary. *)
Lemma strip_data_ok f keep data h d d' :
  h !! data = Some d → strip_fields f keep d = Ok d' →
  strip_data f keep data h = (Ok data, <[data := d']> h).
Proof.
  revert h d. induction f as [|w f IH]; simpl; intros h d Hd H.
  - injection H as <-. by rewrite insert_id.
  - rewrite Hd. destruct (strip_var keep w d) as [d1|e]; simpl in H; [|discriminate].
    erewrite IH; [|apply lookup_insert_eq|done]. by rewrite insert_insert_eq.
Qed.

Lemma strip_data_returned f keep data h res h' :
  strip_data f keep data h = (Ok res, h') →
  res = data ∧
  (f = [] ∧ h' = h ∨
   ∃ d d', h !! data = Some d ∧ strip_fields f keep d = Ok d' ∧ h' = <[data := d']> h).
Proof.
  revert h. induction f as [|w f IH]; simpl; intros h H.
  - injection H as <- <-. auto.
  - destruct (h !! data) as [d|] eqn:Hd; [|discriminate].
    destruct (strip_var keep w d) as [d1|e] eqn:Hw; [|discriminate].
    apply IH in H as [-> H]. split; [done|]. right. exists d.
    destruct H as [[-> ->]|(d0 & d' & Hd0 & Hf & ->)].
    + exists d1. simpl. by rewrite Hw.
    + rewrite lookup_insert_eq in Hd0. injection Hd0 as <-.
      exists d'. simpl. rewrite Hw. simpl. by rewrite insert_insert_eq.
Qed.

Lemma field_op_idem keep v x x' :
  field_op keep v x = Ok x' → field_op keep v x' = Ok x'.
Proof.
  unfold field_op. destruct (bool_decide (v = "requests") && truthy keep).
  - apply filter_requests_idem.
  - intros [= <-]. by rewrite blank_idem.
Qed.

Lemma strip_var_inv keep w d d1 :
  strip_var keep w d = Ok d1 →
  match d !! w with
  | Some x => ∃ x1, field_op keep w x = Ok x1 ∧ d1 = <[w := x1]> d
  | None => d1 = d
  end.
Proof.
  unfold strip_var, field_op. intros H.
  destruct (bool_decide (w = "requests") && truthy keep).
  - destruct (d !! w) as [x|]; [|discriminate].
    destruct (filter_requests keep x) as [x'|e]; simpl in H; [|discriminate].
    injection H as <-. eauto.
  - destruct (d !! w) as [x|].
    + rewrite bool_decide_true in H by eauto. injection H as <-. eauto.
    + rewrite bool_decide_false in H by (by intros [? ?]). by injection H as <-.
Qed.

Lemma strip_fields_frame keep f d d' k :
  strip_fields f keep d = Ok d' → k ∉ f → d' !! k = d !! k.
Proof.
  revert d. induction f as [|w f IH]; simpl; intros d H Hk.
  - by injection H as <-.
  - destruct (strip_var keep w d) as [d1|e] eqn:Hw; simpl in H; [|discriminate].
    apply not_elem_of_cons in Hk as [Hne Hk].
    rewrite (IH _ H Hk). eapply strip_var_lookup_ne; eauto.
Qed.

Lemma strip_fields_dom keep f d d' :
  strip_fields f keep d = Ok d' → dom d' = dom d.
Proof.
  revert d. induction f as [|w f IH]; simpl; intros d H.
  - by injection H as <-.
  - destruct (strip_var keep w d) as [d1|e] eqn:Hw; simpl in H; [|discriminate].
    rewrite (IH _ H). by eapply strip_var_dom.
Qed.

Lemma strip_fields_lookup keep f d d' k x :
  strip_fields f keep d = Ok d' → k ∈ f → d !! k = Some x →
  ∃ x', field_op keep k x = Ok x' ∧ d' !! k = Some x'.
Proof.
  revert d x. induction f as [|w f IH]; simpl; intros d x H Hk Hx.
  - by apply elem_of_nil in Hk.
  - destruct (strip_var keep w d) as [d1|e] eqn:Hw; simpl in H; [|discriminate].
    destruct (decide (k = w)) as [->|Hne].
    + apply strip_var_inv in Hw. rewrite Hx in Hw.
      destruct Hw as (x1 & Hop & ->). exists x1. split; [done|].
      destruct (decide (w ∈ f)) as [Hin|Hnin].
      * destruct (IH _ x1 H Hin) as (x' & Hop' & Hx'); [apply lookup_insert_eq|].
        rewrite (field_op_idem _ _ _ _ Hop) in Hop'. by injection Hop' as <-.
      * rewrite (strip_fields_frame _ _ _ _ _ H Hnin). apply lookup_insert_eq.
    + apply elem_of_cons in Hk as [?|Hk]; [done|].
      eapply IH; eauto.
      rewrite <- Hx. eapply strip_var_lookup_ne; eauto.
Qed.

Lemma field_op_requests keep x l :
  x = VList l ∨ x = VTuple l →
  field_op keep "requests" x =
    Ok (VList (if truthy keep then List.filter (kept keep) l else [])).
Proof.
  unfold field_op. rewrite bool_decide_true by done. simpl.
  intros [-> | ->]; by destruct (truthy keep).
Qed.

Lemma requests_of_inv d l :
  requests_of d = Some l →
  ∃ x, d !! "requests" = Some x ∧ (x = VList l ∨ x = VTuple l).
Proof.
  unfold requests_of. destruct (d !! "requests") as [[]|]; try discriminate;
    intros [= ->]; eauto.
Qed.

(** Pages with a sequence of requests never make the loop raise. *)
Lemma strip_fields_total keep f d l :
  requests_of d = Some l → ∃ d', strip_fields f keep d = Ok d'.
Proof.
  revert d l. induction f as [|w f IH]; simpl; intros d l Hl; [eauto|].
  assert (∃ d1 l1, strip_var keep w d = Ok d1 ∧ requests_of d1 = Some l1)
    as (d1 & l1 & Hw & Hl1).
  { unfold strip_var, requests_of in *.
    destruct (decide (w = "requests")) as [->|Hne].
    - rewrite bool_decide_true by done. simpl.
      destruct (d !! "requests") as [x|] eqn:Hx; [|discriminate].
      rewrite bool_decide_true by eauto.
      destruct x; try discriminate; destruct (truthy keep); simpl;
        eexists _, _; (split; [reflexivity|]); by rewrite lookup_insert_eq.
    - rewrite bool_decide_false by done. simpl.
      case_bool_decide as Hin; [|by eauto].
      destruct (d !! w) as [x|] eqn:Hx; [|by eauto].
      eexists _, l. split; [reflexivity|]. by rewrite lookup_insert_ne. }
  rewrite Hw. simpl. eauto.
Qed.

Example strip_scenario :
  ∃ d', strip_fields ["body"; "full_screenshot"] [] page0 = Ok d' ∧
        d' !! "body" = Some VNone ∧ d' !! "full_screenshot" = Some VNone ∧
        d' !! "requests" = Some (VTuple [req0]) ∧ d' !! "url" = page0 !! "url".
Proof. eexists. split; [reflexivity|]. by vm_compute. Qed.

(** C5, as stated, fails: with [requests] named and an empty keep list the
    page's only request is dropped instead of kept. *)
Lemma strip_empty_keep_drops_requests :
  requests_at (snd (strip_data ["requests"] [] 1%positive heap0)) 1%positive
  ≠ requests_at heap0 1%positive.
Proof. vm_compute. discriminate. Qed.

(** C5 (amended): when [requests] is among the fields to strip, a non-empty
    keep list leaves exactly the requests whose resource type is in it, in
    their order, and an empty keep list leaves no request at all. *)
Theorem strip_data_requests f keep data (h : heap) d l :
  h !! data = Some d → requests_of d = Some l → "requests" ∈ f →
  ∃ h', strip_data f keep data h = (Ok data, h') ∧
        requests_at h' data =
          Some (if truthy keep then List.filter (kept keep) l else []).
Proof.
  intros Hd Hl Hin.
  destruct (strip_fields_total keep f d l Hl) as [d' Hf].
  exists (<[data := d']> h). split; [by eapply strip_data_ok|].
  unfold requests_at. rewrite lookup_insert_eq. simpl.
  destruct (requests_of_inv _ _ Hl) as (x & Hx & Hxl).
  destruct (strip_fields_lookup _ _ _ _ _ _ Hf Hin Hx) as (x' & Hop & Hx').
  rewrite (field_op_requests _ _ _ Hxl) in Hop. injection Hop as <-.
  unfold requests_of. by rewrite Hx'.
Qed.

Lemma strip_data_requests_witness :
  ∃ h', strip_data ["body"; "requests"] ["image"] 1%positive heap0
          = (Ok 1%positive, h') ∧
        requests_at h' 1%positive = Some [req0].
Proof.
  destruct (strip_data_requests ["body"; "requests"] ["image"] 1%positive
              heap0 page0 [req0]) as (h' & Hrun & Hreq).
  - reflexivity.
  - reflexivity.
  - apply list_elem_of_In. simpl. auto.
  - exists h'. split; [exact Hrun|]. rewrite Hreq. reflexivity.
Defined.

(** C7, as stated, fails: the page object passed in is itself updated, so
    after the call it no longer holds what it held before. *)
Lemma strip_data_mutates_input :
  snd (strip_data ["body"] [] 1%positive heap0) !! 1%positive
  ≠ heap0 !! 1%positive.
Proof.
  intros H.
  assert (Hb : snd (strip_data ["body"] [] 1%positive heap0) !! 1%positive
                 ≫= (.!! "body") = heap0 !! 1%positive ≫= (.!! "body"))
    by (by rewrite H).
  vm_compute in Hb. discriminate.
Qed.

(** C7 (amended): [strip_data] updates the page object it is given and
    returns that same object.  The key set is preserved, fields that are not
    named are untouched, a named field that is present holds its blank value
    ([[]] for a list or tuple, [{}] for a dict, [None] otherwise), except
    [requests] under a non-empty keep list, which is filtered instead. *)
Theorem strip_data_in_place f keep data (h : heap) d l :
  h !! data = Some d → requests_of d = Some l →
  ∃ d', strip_data f keep data h = (Ok data, <[data := d']> h) ∧
        dom d' = dom d ∧
        (∀ k, k ∉ f → d' !! k = d !! k) ∧
        (∀ k x, k ∈ f → d !! k = Some x →
           ¬ (k = "requests" ∧ keep ≠ []) → d' !! k = Some (blank x)) ∧
        ("requests" ∈ f → keep ≠ [] →
           requests_of d' = Some (List.filter (kept keep) l)).
Proof.
  intros Hd Hl.
  destruct (strip_fields_total keep f d l Hl) as [d' Hf].
  exists d'. split; [by eapply strip_data_ok|].
  split; [by eapply strip_fields_dom|].
  split; [intros k Hk; by eapply strip_fields_frame|].
  split.
  - intros k x Hk Hx Hnot.
    destruct (strip_fields_lookup _ _ _ _ _ _ Hf Hk Hx) as (x' & Hop & Hx').
    unfold field_op in Hop.
    destruct (bool_decide (k = "requests") && truthy keep) eqn:Hc.
    + apply andb_true_iff in Hc as [Hk' Hkeep].
      apply bool_decide_eq_true in Hk'. destruct Hnot. split; [done|].
      by destruct keep.
    + by injection Hop as <-.
  - intros Hin Hkeep.
    destruct (requests_of_inv _ _ Hl) as (x & Hx & Hxl).
    destruct (strip_fields_lookup _ _ _ _ _ _ Hf Hin Hx) as (x' & Hop & Hx').
    rewrite (field_op_requests _ _ _ Hxl) in Hop. injection Hop as <-.
    unfold requests_of. rewrite Hx'. by destruct keep.
Qed.

Lemma strip_data_in_place_witness :
  ∃ d', strip_data ["body"; "screenshot"] [] 1%positive heap0
          = (Ok 1%positive, <[1%positive := d']> heap0) ∧
        dom d' = dom page0 ∧ d' !! "body" = Some VNone.
Proof.
  destruct (strip_data_in_place ["body"; "screenshot"] [] 1%positive heap0
              page0 [req0]) as (d' & Hrun & Hdom & _ & Hblank & _).
  - reflexivity.
  - reflexivity.
  - exists d'. split; [exact Hrun|]. split; [exact Hdom|].
    apply (Hblank "body" (VBytes [Byte.x68; Byte.x69])).
    + apply list_elem_of_In. simpl. auto.
    + reflexivity.
    + intros [Hk _]. discriminate Hk.
Defined.

(** C8: stripping is idempotent.  Running [strip_data] on what a first run
    returned gives the same object in the same state (and when the first run
    raises there is no second run). *)
Theorem strip_data_idempotent f keep data (h : heap) :
  strip_twice f keep data h = strip_data f keep data h.
Proof.
  unfold strip_twice.
  destruct (strip_data f keep data h) as [[res|e] h'] eqn:Hrun; [|done].
  destruct (strip_data_returned _ _ _ _ _ _ Hrun) as [-> Hcases].
  destruct Hcases as [[-> ->]|(d & d' & Hd & Hf & ->)]; [done|].
  erewrite strip_data_ok;
    [|apply lookup_insert_eq|by eapply strip_fields_idem].
  by rewrite insert_insert_eq.
Qed.

Example strip_data_idempotent_page0 :
  strip_twice ["requests"; "body"; "requests"] ["image"] 1%positive heap0
  = strip_data ["requests"; "body"; "requests"] ["image"] 1%positive heap0
  ∧ fst (strip_data ["requests"; "body"; "requests"] ["image"] 1%positive heap0)
    = Ok 1%positive.
Proof. split; [apply strip_data_idempotent|reflexivity]. Qed.

(** ** The connection pool *)

Lemma curl_instance_init kw : _curl_instance (CurlScraper_init kw) = new_curl.
Proof. reflexivity. Qed.

Lemma add_curl_option_keeps o name v self :
  o ∈ curl_options self → o ∈ curl_options (_add_curl_option name v self).
Proof. simpl. intros H. apply elem_of_app. by left. Qed.

Lemma setup_rest_keeps o self :
  o ∈ curl_options self → o ∈ curl_options (setup_rest self).
Proof.
  intros H. unfold setup_rest.
  repeat match goal with
         | |- context [if ?b then _ else _] => destruct b
         | |- context [match ?x with Some _ => _ | None => _ end] => destruct x
         | |- _ ∈ curl_options (_add_curl_option _ _ _) => apply add_curl_option_keeps
         end; assumption.
Qed.

Lemma setup_shares self :
  (SHARE, OShare) ∈ curl_options (setup self).2.
Proof.
  unfold setup.
  assert (H : (SHARE, OShare) ∈ curl_options (_add_curl_option SHARE OShare self)).
  { simpl. apply elem_of_app. right. apply list_elem_of_singleton. done. }
  destruct (str_truthy (proxy (_add_curl_option SHARE OShare self))); simpl snd.
  - by do 2 apply add_curl_option_keeps.
  - by apply setup_rest_keeps.
Qed.

Lemma fill_handles_length q st :
  length (handles (fill q st)) = length (handles st).
Proof.
  revert st. induction q as [|u q IH]; simpl; intros st; [done|].
  destruct (list_pop (freelist st)) as [[c fl']|]; [|done].
  rewrite IH. simpl. apply length_alter.
Qed.

Lemma for_ok_list_handles ts kp l st st' :
  for_ok_list ts kp l st = Next st' → handles st' = handles st.
Proof.
  revert st. induction l as [|item l IH]; simpl; intros st H.
  - by injection H as <-.
  - destruct (finish_ok ts kp item st) as [st1|e st1] eqn:Hf; [|discriminate].
    rewrite (IH _ H). unfold finish_ok in Hf.
    destruct (handles st !! item.1) as [c|]; [|discriminate].
    destruct (cw c) as [w|]; [|discriminate].
    destruct (strip_fields _ _ _) as [d|]; [|discriminate].
    destruct (convert_data d) as [b|]; [|discriminate].
    by injection Hf as <-.
Qed.

Lemma for_ok_list_abort_handles ts kp l st e st' :
  for_ok_list ts kp l st = Abort e st' → handles st' = handles st.
Proof.
  revert st. induction l as [|item l IH]; simpl; intros st H; [discriminate|].
  destruct (finish_ok ts kp item st) as [st1|e1 st1] eqn:Hf.
  - rewrite (IH _ H). by apply (for_ok_list_handles ts kp [item]); simpl; rewrite Hf.
  - injection H as <- <-. unfold finish_ok in Hf.
    destruct (handles st !! item.1) as [c|]; [|by injection Hf as <- <-].
    destruct (cw c) as [w|]; [|by injection Hf as <- <-].
    destruct (strip_fields _ _ _) as [d|]; [|by injection Hf as <- <-].
    destruct (convert_data d) as [b|]; [discriminate|by injection Hf as <- <-].
Qed.

Lemma fold_finish_err_handles l st :
  handles (fold_left finish_err l st) = handles st.
Proof. revert st. induction l as [|i l IH]; simpl; intros st; [done|by rewrite IH]. Qed.

Lemma main_loop_handles_length ts kp n net st :
  length (loop_handles (main_loop ts kp n net st)) = length (handles st).
Proof.
  revert st. induction net as [|r net IH]; simpl; intros st; [done|].
  destruct (for_ok_list ts kp (ok_list r) (log_read r st)) as [st1|e st1] eqn:Hok.
  - apply for_ok_list_handles in Hok. simpl in Hok.
    repeat case_bool_decide; rewrite ?IH, ?fill_handles_length; simpl;
      by rewrite fold_finish_err_handles, Hok.
  - apply for_ok_list_abort_handles in Hok. simpl in *. by rewrite Hok.
Qed.

Example setup_defaults :
  setup (CurlScraper_init kw0) =
  (Ok (),
   _add_curl_option TIMEOUT (OInt 3000)
     (_add_curl_option NOSIGNAL (OInt 1)
     (_add_curl_option CONNECTTIMEOUT (OInt 30)
     (_add_curl_option MAXREDIRS (OInt 3)
     (_add_curl_option FOLLOWLOCATION (OBool true)
     (_add_curl_option CAINFO (OStr certifi_where)
     (_add_curl_option SSL_VERIFYHOST (OInt 2)
     (_add_curl_option SSL_VERIFYPEER (OInt 1)
     (_add_curl_option COOKIEFILE (OStr "")
     (_add_curl_option SHARE OShare (CurlScraper_init kw0))))))))))).
Proof. reflexivity. Qed.

(** C1 fails on the code: [_curl_main] never calls [setup], so every handle
    it allocates is a bare handle on which no option was set, whereas
    [setup] would have accumulated at least the shared-cache option. *)
Theorem curl_main_handles_bare kw num_conn :
  allocate (CurlScraper_init kw) num_conn = replicate (Z.to_nat num_conn) new_curl
  ∧ Forall (λ c, setopts c = []) (allocate (CurlScraper_init kw) num_conn)
  ∧ (SHARE, OShare) ∈ curl_options (setup (CurlScraper_init kw)).2
  ∧ Forall (λ c, setopts c ≠ curl_options (setup (CurlScraper_init kw)).2)
      (allocate (CurlScraper_init kw) num_conn).
Proof.
  assert (Hbare : allocate (CurlScraper_init kw) num_conn
                  = replicate (Z.to_nat num_conn) new_curl) by reflexivity.
  pose proof (setup_shares (CurlScraper_init kw)) as Hshare.
  split; [done|]. split; [|split; [done|]].
  - rewrite Hbare. apply Forall_replicate. done.
  - rewrite Hbare. apply Forall_replicate. simpl. intros Heq.
    rewrite <- Heq in Hshare. by apply elem_of_nil in Hshare.
Qed.

(** C9: a number of connections outside [1, 10000] makes [_curl_main] raise
    its assertion with nothing done (no handle allocated, no output file, no
    handle added to the multi stack, no answer read); an accepted number is
    clamped to the number of URLs and that many handles form the pool. *)
Theorem curl_main_num_conn kw urls net :
  (¬ (1 ≤ kw_num_conn kw ≤ 10000)%Z →
     _curl_main kw urls net =
       Raised (AssertionError "invalid number of concurrent connections") world0)
  ∧ ((1 ≤ kw_num_conn kw ≤ 10000)%Z →
     length (w_handles (world_of (_curl_main kw urls net)))
       = Nat.min (Z.to_nat (kw_num_conn kw)) (length urls)).
Proof.
  unfold _curl_main. split; intros Hn.
  - rewrite (proj2 (negb_true_iff _)); [done|].
    apply andb_false_iff.
    destruct (decide (1 ≤ kw_num_conn kw)%Z);
      [right | left]; apply bool_decide_eq_false; lia.
  - rewrite (proj2 (negb_false_iff _)); cycle 1.
    { apply andb_true_iff. split; apply bool_decide_eq_true; lia. }
    set (st := {| handles := _; stack := _ |}) at 1.
    assert (Hlen : length (handles st)
                   = Nat.min (Z.to_nat (kw_num_conn kw)) (length urls)).
    { simpl. unfold allocate. rewrite length_replicate. lia. }
    cbv zeta. fold st.
    case_bool_decide.
    + pose proof (main_loop_handles_length (kw_strip_data kw) (kw_keep_content kw)
                    (length urls) net (fill (queue st) st)) as Hl.
      rewrite fill_handles_length in Hl.
      destruct (main_loop _ _ _ _ _) as [st'|e st'|st']; simpl in Hl |- *;
        [|by rewrite Hl..].
      unfold cleanup. destruct (truncate _ _); simpl;
        by rewrite length_map, Hl.
    + unfold cleanup. destruct (truncate _ _); simpl;
        by rewrite length_map.
Qed.

(** ** The result sink of the connection-pool engine *)

Lemma lines_join sep r recs :
  lines sep (r :: recs) = join_records sep (r :: recs) ++ sep.
Proof.
  revert r. induction recs as [|r' recs IH]; intros r.
  - unfold lines. simpl. by rewrite app_nil_r.
  - change (lines sep (r :: r' :: recs)) with ((r ++ sep) ++ lines sep (r' :: recs)).
    rewrite IH. simpl. by rewrite <- !app_assoc.
Qed.

Lemma linesep_length : 0 < length (linesep os_name).
Proof. destruct os_name; simpl; lia. Qed.

Lemma truncate_lines recs fp' :
  truncate (lines (linesep os_name) recs)
    (tell (lines (linesep os_name) recs) - Z.of_nat (length (linesep os_name)))
    = Ok fp' →
  recs ≠ [] ∧ fp' = join_records (linesep os_name) recs.
Proof.
  pose proof linesep_length as Hsep. unfold truncate, tell.
  destruct recs as [|r recs].
  - unfold lines. simpl length. rewrite bool_decide_true by lia. discriminate.
  - rewrite lines_join. generalize (join_records (linesep os_name) (r :: recs)).
    intros j. rewrite length_app.
    rewrite bool_decide_false by lia. intros [= <-]. split; [done|].
    replace (Z.to_nat _) with (length j) by lia.
    rewrite take_app_length.
    replace (_ - _) with 0 by lia. simpl. by rewrite app_nil_r.
Qed.

Lemma fill_jobs_known urls q st :
  q = queue st → jobs_known urls st → jobs_known urls (fill q st).
Proof.
  revert st. induction q as [|u q IH]; simpl; intros st Hq [Hh Hqs]; [done|].
  destruct (list_pop (freelist st)) as [[c fl']|]; [|done].
  rewrite <- Hq in Hqs. apply Forall_cons in Hqs as [Hu Hqs].
  apply IH; [done|]. split; simpl; [|done].
  apply Forall_alter; [done|].
  intros h _ _ w [= <-]. by exists u.
Qed.

Lemma finish_ok_spec kw urls item st st' :
  jobs_known urls st →
  finish_ok (kw_strip_data kw) (kw_keep_content kw) item st = Next st' →
  ∃ rec, (∃ url, url ∈ urls ∧ record_of kw url item.2 = Ok rec)
         ∧ output_fp st' = output_fp st ++ rec ++ linesep os_name
         ∧ handles st' = handles st ∧ queue st' = queue st
         ∧ reads st' = reads st.
Proof.
  intros [Hh _] H. unfold finish_ok in H.
  destruct (handles st !! item.1) as [c|] eqn:Hc; [|discriminate].
  destruct (cw c) as [w|] eqn:Hw; [|discriminate].
  destruct (Forall_lookup_1 _ _ _ _ Hh Hc w Hw) as (u & Hu & ->).
  destruct (strip_fields _ _ _) as [d|] eqn:Hs; [|discriminate].
  destruct (convert_data d) as [b|] eqn:Hb; [|discriminate].
  injection H as <-. exists b. split.
  - exists u. split; [done|]. unfold record_of. rewrite Hs. done.
  - simpl. by rewrite <- app_assoc.
Qed.

Lemma for_ok_list_spec kw urls l st st' :
  jobs_known urls st →
  for_ok_list (kw_strip_data kw) (kw_keep_content kw) l st = Next st' →
  ∃ recs, written kw urls l recs
          ∧ output_fp st' = output_fp st ++ lines (linesep os_name) recs
          ∧ handles st' = handles st ∧ queue st' = queue st
          ∧ reads st' = reads st.
Proof.
  revert st. induction l as [|item l IH]; simpl; intros st Hk H.
  - injection H as <-. exists []. unfold lines. simpl.
    rewrite app_nil_r. repeat split. constructor.
  - destruct (finish_ok _ _ item st) as [st1|e st1] eqn:Hf; [|discriminate].
    destruct (finish_ok_spec _ _ _ _ _ Hk Hf) as (rec & Hrec & Ho & Hh & Hq & Hr).
    destruct (IH st1) as (recs & Hw & Ho' & Hh' & Hq' & Hr'); [|done|].
    { destruct Hk. split; by rewrite ?Hh, ?Hq. }
    exists (rec :: recs). split; [by constructor|].
    rewrite Ho', Ho, Hh', Hh, Hq', Hq, Hr', Hr. repeat split.
    unfold lines. simpl. by rewrite <- !app_assoc.
Qed.

Lemma fold_finish_err_frame l st :
  queue (fold_left finish_err l st) = queue st
  ∧ reads (fold_left finish_err l st) = reads st
  ∧ output_fp (fold_left finish_err l st) = output_fp st.
Proof.
  revert st. induction l as [|i l IH]; simpl; intros st; [done|].
  destruct (IH (finish_err st i)) as (-> & -> & ->). done.
Qed.

Lemma fill_frame q st :
  reads (fill q st) = reads st ∧ output_fp (fill q st) = output_fp st.
Proof.
  revert st. induction q as [|u q IH]; simpl; intros st; [done|].
  destruct (list_pop (freelist st)) as [[c fl']|]; [|done].
  destruct (IH (add_job u c q fl' st)) as [-> ->]. done.
Qed.

(** What a completed loop has read and written. *)
Lemma main_loop_done kw urls n net st st' :
  jobs_known urls st →
  main_loop (kw_strip_data kw) (kw_keep_content kw) n net st = LoopDone st' →
  ∃ consumed recs,
    reads st' = reads st ++ consumed
    ∧ written kw urls (flat_map ok_list consumed) recs
    ∧ output_fp st' = output_fp st ++ lines (linesep os_name) recs.
Proof.
  revert st. induction net as [|r net IH]; intros st Hk H; [discriminate|].
  cbn [main_loop] in H.
  destruct (for_ok_list _ _ (ok_list r) (log_read r st)) as [st1|e st1] eqn:Hok;
    [|discriminate].
  cbv zeta in H.
  destruct (for_ok_list_spec kw urls (ok_list r) (log_read r st) st1 Hk Hok)
    as (recs & Hw & Ho & Hh & Hq & Hr).
  simpl in Ho, Hh, Hq, Hr.
  set (st2 := fold_left finish_err (err_list r) st1) in *.
  set (st3 := add_processed _ st2) in *.
  destruct (fold_finish_err_frame (err_list r) st1) as (Hq2 & Hr2 & Ho2).
  assert (Hk3 : jobs_known urls st3).
  { destruct Hk. split; simpl.
    - unfold st2. by rewrite fold_finish_err_handles, Hh.
    - unfold st2. by rewrite Hq2, Hq. }
  assert (Hstep : ∀ st4, reads st4 = reads st3 → output_fp st4 = output_fp st3 →
            (∃ consumed recs',
               reads st' = reads st4 ++ consumed
               ∧ written kw urls (flat_map ok_list consumed) recs'
               ∧ output_fp st' = output_fp st4 ++ lines (linesep os_name) recs') →
            ∃ consumed recs',
               reads st' = reads st ++ consumed
               ∧ written kw urls (flat_map ok_list consumed) recs'
               ∧ output_fp st' = output_fp st ++ lines (linesep os_name) recs').
  { intros st4 Hr4 Ho4 (consumed & recs' & Hr' & Hw' & Ho').
    exists (r :: consumed), (recs ++ recs'). simpl.
    rewrite Hr', Hr4. simpl. fold st2. unfold st2 at 1. rewrite Hr2, Hr.
    rewrite Ho', Ho4. simpl. fold st2. unfold st2 at 1. rewrite Ho2, Ho.
    rewrite <- !app_assoc. split; [done|]. split.
    - by apply Forall2_app.
    - unfold lines. by rewrite map_app, concat_app. }
  case_bool_decide.
  - case_bool_decide.
    + apply IH in H; [|by apply fill_jobs_known].
      apply (Hstep (fill (queue st3) st3)); [apply fill_frame..|done].
    + injection H as <-. apply (Hstep st3); [done..|].
      exists [], []. unfold lines. simpl. rewrite !app_nil_r. repeat split.
      constructor.
  - apply IH in H; [|done]. by apply (Hstep st3).
Qed.

Lemma initial_jobs_known kw urls n :
  jobs_known urls
    {| handles := allocate (CurlScraper_init kw) n; stack := []; added := [];
       reads := []; queue := urls;
       freelist := seq 0 (length (allocate (CurlScraper_init kw) n));
       num_processed := 0; output_fp := []; pbar := 0 |}.
Proof.
  split; simpl.
  - apply Forall_replicate. intros w Hw. discriminate Hw.
  - by apply Forall_forall.
Qed.

(** C2: when [_curl_main] returns, the output file holds exactly the records
    of the successful transfers the multiplexer reported, one for each and in
    the order reported, joined by single delimiters with none at the end;
    there is at least one of them, and failed transfers leave no trace. *)
Theorem curl_main_output kw urls net w :
  _curl_main kw urls net = Returned w →
  ∃ recs,
    w_output w = Some (join_records (linesep os_name) recs)
    ∧ written kw urls (flat_map ok_list (w_reads w)) recs
    ∧ length recs = length (flat_map ok_list (w_reads w))
    ∧ recs ≠ [].
Proof.
  unfold _curl_main.
  destruct (negb _); [discriminate|]. cbv zeta.
  set (n := Z.min _ _).
  set (st := {| handles := _; stack := _ |}).
  pose proof (initial_jobs_known kw urls n) as Hk. fold st in Hk.
  assert (Hdone : ∀ st', (∃ consumed recs,
              reads st' = consumed
              ∧ written kw urls (flat_map ok_list consumed) recs
              ∧ output_fp st' = lines (linesep os_name) recs) →
            cleanup st' = Returned w →
            ∃ recs,
              w_output w = Some (join_records (linesep os_name) recs)
              ∧ written kw urls (flat_map ok_list (w_reads w)) recs
              ∧ length recs = length (flat_map ok_list (w_reads w))
              ∧ recs ≠ []).
  { intros st' (consumed & recs & Hr & Hw & Ho). unfold cleanup. rewrite Ho.
    destruct (truncate _ _) as [fp'|e] eqn:Ht; [|discriminate].
    intros [= <-]. simpl. apply truncate_lines in Ht as [Hne ->].
    exists recs. rewrite Hr. repeat split; try done.
    symmetry. by eapply Forall2_length. }
  case_bool_decide.
  - destruct (main_loop _ _ _ _ _) as [st'|e st'|st'] eqn:Hloop; try discriminate.
    apply (main_loop_done kw urls) in Hloop; [|by apply fill_jobs_known].
    destruct Hloop as (consumed & recs & Hr & Hw & Ho).
    destruct (fill_frame (queue st) st) as [Hfr Hfo].
    rewrite Hfr in Hr. rewrite Hfo in Ho. simpl in Hr, Ho.
    apply Hdone. by exists consumed, recs.
  - apply Hdone. exists [], []. repeat split. constructor.
Qed.

Lemma for_ok_list_nil ts kp st : for_ok_list ts kp [] st = Next st.
Proof. reflexivity. Qed.

(** With no successful transfer the loop never aborts and writes nothing. *)
Lemma main_loop_no_ok ts kp n net st :
  Forall (λ r, ok_list r = []) net →
  match main_loop ts kp n net st with
  | LoopDone st' | LoopPending st' => output_fp st' = output_fp st
  | LoopAbort _ _ => False
  end.
Proof.
  intros Hnet. revert st. induction Hnet as [|r net Hr _ IH]; intros st; [done|].
  cbn [main_loop]. rewrite Hr, for_ok_list_nil. cbv zeta.
  destruct (fold_finish_err_frame (err_list r) (log_read r st)) as (_ & _ & Ho).
  repeat case_bool_decide.
  - specialize (IH (fill (queue (add_processed (length (@nil (nat * transfer))
                                    + length (err_list r))
                           (fold_left finish_err (err_list r) (log_read r st))))
                         (add_processed (length (@nil (nat * transfer))
                                    + length (err_list r))
                           (fold_left finish_err (err_list r) (log_read r st))))).
    destruct (main_loop _ _ _ _ _); try done;
      rewrite IH; by rewrite (proj2 (fill_frame _ _)).
  - done.
  - specialize (IH (add_processed (length (@nil (nat * transfer))
                                    + length (err_list r))
                           (fold_left finish_err (err_list r) (log_read r st)))).
    destruct (main_loop _ _ _ _ _); try done; by rewrite IH.
Qed.

Lemma cleanup_empty st :
  output_fp st = [] →
  (tell (output_fp st) - Z.of_nat (length (linesep os_name)) < 0)%Z
  ∧ ∃ w, cleanup st = Raised OSError w ∧ w_output w = Some [].
Proof.
  intros Ho. pose proof linesep_length as Hsep.
  assert (Hneg : (tell (output_fp st) - Z.of_nat (length (linesep os_name)) < 0)%Z).
  { rewrite Ho. unfold tell. simpl. lia. }
  split; [done|]. unfold cleanup, truncate.
  rewrite bool_decide_true by done. rewrite Ho. eauto.
Qed.

(** C10: when nothing was written, the final step asks [truncate] for a
    negative size, so [_curl_main] raises instead of returning; in particular
    a run in which every transfer fails never returns: once the loop is over
    it raises [OSError] and leaves an empty output file. *)
Theorem curl_main_empty_output_raises kw urls net :
  (1 ≤ kw_num_conn kw ≤ 10000)%Z →
  Forall (λ r, ok_list r = []) net →
  (∀ st, output_fp st = [] →
     (tell (output_fp st) - Z.of_nat (length (linesep os_name)) < 0)%Z
     ∧ ∃ w, cleanup st = Raised OSError w ∧ w_output w = Some [])
  ∧ match _curl_main kw urls net with
    | Returned _ => False
    | Raised e w => e = OSError ∧ w_output w = Some []
    | Pending w => w_output w = Some []
    end.
Proof.
  intros Hn Hnet. split; [apply cleanup_empty|].
  unfold _curl_main.
  rewrite (proj2 (negb_false_iff _)); cycle 1.
  { apply andb_true_iff. split; apply bool_decide_eq_true; lia. }
  cbv zeta. set (st := {| handles := _; stack := _ |}).
  assert (Hclean : ∀ st', output_fp st' = [] →
            match cleanup st' with
            | Returned _ => False
            | Raised e w => e = OSError ∧ w_output w = Some []
            | Pending w => w_output w = Some []
            end).
  { intros st' Ho. destruct (cleanup_empty st' Ho) as (_ & w & -> & Hw). done. }
  case_bool_decide; [|by apply Hclean].
  pose proof (main_loop_no_ok (kw_strip_data kw) (kw_keep_content kw)
                (length urls) net (fill (queue st) st) Hnet) as Hloop.
  rewrite (proj2 (fill_frame _ _)) in Hloop. simpl in Hloop.
  destruct (main_loop _ _ _ _ _) as [st'|e st'|st']; [by apply Hclean|done|].
  simpl. by rewrite Hloop.
Qed.

(** ** The page-pool scraper *)

Lemma close_new_page c : close_page (new_page c) = c.
Proof. by destruct c. Qed.

(** A navigation failure closes the page before the exception goes on. *)
Lemma scrape_goto_failure_closes self url env c e :
  route env = Ok () → wait_for_timeout env = Ok () → goto env = Raise e →
  scrape self url env c = (Raise e, c).
Proof.
  intros Hr Hw Hg. unfold scrape, scrape_page. rewrite Hr, Hw, Hg.
  rewrite close_new_page. by case_bool_decide.
Qed.

(** A scrape that returns has closed its page. *)
Lemma scrape_success_closes self url env c data c' :
  scrape self url env c = (Ok data, c') → open_pages c' = open_pages c.
Proof.
  unfold scrape, scrape_page.
  destruct (route env) as [[]|]; [|by intros [= ]].
  destruct (if bool_decide _ then _ else _) as [[]|]; [|by intros [= ]].
  destruct (goto env) as [[]|]; [|by intros [= ]].
  destruct (content env); [|by intros [= ]].
  destruct (screenshot env); [|by intros [= ]].
  destruct (full_screenshot env); [|by intros [= ]].
  destruct (clear_cookies self).
  - destruct (clear env) as [[]|]; [|by intros [= ]]. by intros [= _ <-].
  - by intros [= _ <-].
Qed.

(** C4 fails on the code: only the navigation is guarded.  When the
    navigation succeeds and a later step raises (reading the content, a
    screenshot, clearing the cookies), [scrape] lets the exception go on
    with the page of the job still open. *)
Theorem scrape_late_failure_leaks self url env c e :
  goto env = Ok () →
  (scrape self url env c).1 = Raise e →
  open_pages (scrape self url env c).2 = S (open_pages c).
Proof.
  intros Hg. unfold scrape, scrape_page. rewrite Hg.
  destruct (route env) as [[]|]; [|done].
  destruct (if bool_decide _ then _ else _) as [[]|]; [|done].
  destruct (content env); [|done].
  destruct (screenshot env); [|done].
  destruct (full_screenshot env); [|done].
  destruct (clear_cookies self); [|discriminate].
  destruct (clear env) as [[]|]; [discriminate|done].
Qed.

(** A response with status 200 is recorded with its body. *)
Lemma request_handler_200 request r b h cert hs :
  get_response request = Ok (Some r) → status r = 200%Z →
  body r = Ok b → all_headers r = Ok h → security_details r = Ok cert →
  request_headers request = Ok hs →
  ∃ out, request_handler request = Ok out
         ∧ ∃ rsp, response out = Some rsp ∧ resp_body rsp = b
                  ∧ resp_status_code rsp = 200%Z.
Proof.
  intros Hr Hs Hb Hh Hc Hhs. unfold request_handler.
  rewrite Hr. simpl. rewrite Hc. simpl.
  rewrite bool_decide_true by done. rewrite Hb, Hh. simpl. rewrite ?Hc. simpl.
  rewrite Hhs. simpl. eexists. split; [reflexivity|]. simpl.
  eexists. split; [reflexivity|]. by rewrite Hs.
Qed.

(** A response with another status is recorded without a response. *)
Lemma request_handler_other_status request r cert hs :
  get_response request = Ok (Some r) → status r ≠ 200%Z →
  security_details r = Ok cert → request_headers request = Ok hs →
  ∃ out, request_handler request = Ok out ∧ response out = None.
Proof.
  intros Hr Hs Hc Hhs. unfold request_handler.
  rewrite Hr. simpl. rewrite Hc. simpl.
  rewrite bool_decide_false by done. simpl. rewrite Hhs. simpl.
  eexists. split; reflexivity.
Qed.

(** C6 fails on the code for an exchange without response: the handler
    reads [security_details] of the missing response before it tests it, the
    exception is swallowed by [scrape], and no request is recorded at all. *)
Theorem request_handler_no_response request :
  get_response request = Ok None →
  request_handler request = Raise AttributeError
  ∧ ∀ _requests, on_requestfinished _requests request = _requests.
Proof.
  intros Hr.
  assert (H : request_handler request = Raise AttributeError).
  { unfold request_handler. by rewrite Hr. }
  split; [done|]. intros l. unfold on_requestfinished. by rewrite H.
Qed.

(** ** The page-pool driver *)

Lemma fold_left_put l q :
  items (fold_left put l q) = items q ++ l
  ∧ unfinished_tasks (fold_left put l q) = unfinished_tasks q + length l.
Proof.
  revert q. induction l as [|x l IH]; simpl; intros q.
  - by rewrite app_nil_r, Nat.add_0_r.
  - destruct (IH (put q x)) as [-> ->]. simpl.
    rewrite <- app_assoc. split; [done|lia].
Qed.

Lemma count_jobs_app l1 l2 : count_jobs (l1 ++ l2) = count_jobs l1 + count_jobs l2.
Proof. unfold count_jobs. by rewrite List.filter_app, length_app. Qed.

Lemma count_jobs_urls (urls : list string) : count_jobs (map Some urls) = length urls.
Proof. induction urls as [|u urls IH]; [done|]. unfold count_jobs in *. simpl. by rewrite IH. Qed.

Lemma count_jobs_markers n : count_jobs (replicate n None) = 0.
Proof. induction n as [|n IH]; [done|]. unfold count_jobs in *. simpl. by rewrite IH. Qed.

Lemma count_busy_idle n : count_busy (replicate n Idle) = 0.
Proof. induction n as [|n IH]; [done|]. unfold count_busy in *. simpl. by rewrite IH. Qed.

Lemma no_failed_idle n : existsb has_failed (replicate n Idle) = false.
Proof. induction n as [|n IH]; [done|]. simpl. by rewrite IH. Qed.

Lemma count_busy_insert (ws : list worker) i w w' :
  ws !! i = Some w →
  count_busy (<[i := w']> ws) + Nat.b2n (busy w)
  = count_busy ws + Nat.b2n (busy w').
Proof.
  revert i. induction ws as [|a ws IH]; intros i Hi; [done|].
  destruct i as [|i]; simpl in Hi.
  - injection Hi as ->. unfold count_busy. simpl.
    destruct (busy w), (busy w'); simpl; lia.
  - specialize (IH i Hi). unfold count_busy in *. simpl.
    destruct (busy a); simpl; lia.
Qed.

Lemma no_failed_insert (ws : list worker) i w' :
  existsb has_failed ws = false → has_failed w' = false →
  existsb has_failed (<[i := w']> ws) = false.
Proof.
  revert i. induction ws as [|a ws IH]; intros i Hws Hw'; [done|].
  simpl in Hws. apply orb_false_iff in Hws as [Ha Hws].
  destruct i as [|i]; simpl.
  - by rewrite Hw', Hws.
  - by rewrite Ha, IH.
Qed.

Lemma busy_counted (ws : list worker) i w :
  ws !! i = Some w → busy w = true → 0 < count_busy ws.
Proof.
  revert i. induction ws as [|a ws IH]; intros i Hi Hb; [done|].
  unfold count_busy in *. destruct i as [|i]; simpl in *.
  - injection Hi as ->. rewrite Hb. simpl. lia.
  - specialize (IH i Hi Hb). destruct (busy a); simpl; lia.
Qed.

(** The [finally] block of a worker that holds a job keeps the count. *)
Lemma finally_inv num_pages s i w :
  workers s !! i = Some w → busy w = true → main s = MJoin →
  unfinished_tasks (jobs s)
    = Z.to_nat num_pages + count_busy (workers s) + count_jobs (items (jobs s)) →
  existsb has_failed (workers s) = false →
  join_inv num_pages (set_worker i (finally s).1 (finally s).2).
Proof.
  intros Hi Hb Hm Hu Hf. right.
  pose proof (busy_counted _ _ _ Hi Hb) as Hpos.
  pose proof (count_busy_insert (workers s) i w Idle Hi) as Hc.
  rewrite Hb in Hc. simpl in Hc.
  unfold finally. simpl.
  destruct (unfinished_tasks (jobs s)) as [|n] eqn:Hn; [lia|]. simpl.
  split; [done|]. split; [lia|]. by apply no_failed_insert.
Qed.

(** With at least one page, a step of any task keeps [join_inv]. *)
Lemma pstep_join_inv scraper ts kp urls num_pages t s s' :
  (0 < num_pages)%Z → join_inv num_pages s →
  pstep scraper ts kp urls num_pages t s = Some s' → join_inv num_pages s'.
Proof.
  intros Hpos [->|(Hm & Hu & Hf)] Hstep.
  - destruct t as [|i]; simpl in Hstep; [|discriminate].
    injection Hstep as <-. right. simpl. split; [done|].
    destruct (fold_left_put (map Some urls) {| items := []; unfinished_tasks := 0 |})
      as [Hi1 Hu1].
    destruct (fold_left_put (replicate (Z.to_nat num_pages) None)
                (fold_left put (map Some urls) {| items := []; unfinished_tasks := 0 |}))
      as [Hi2 Hu2].
    rewrite Hi2, Hu2, Hi1, Hu1. simpl.
    rewrite count_jobs_app, count_jobs_urls, count_jobs_markers.
    rewrite count_busy_idle, no_failed_idle.
    rewrite length_replicate, length_map. split; [lia|done].
  - destruct t as [|i]; simpl in Hstep.
    + unfold main_step in Hstep. rewrite Hm, Hf in Hstep.
      rewrite bool_decide_false in Hstep by lia. discriminate.
    + destruct (workers s !! i) as [w|] eqn:Hi; [|discriminate].
      destruct w as [|url|data| | |e]; simpl in Hstep; try discriminate.
      * destruct (items (jobs s)) as [|[url|] rest] eqn:Hitems; [discriminate|..];
          injection Hstep as <-; right; simpl.
        -- pose proof (count_busy_insert (workers s) i Idle (Scraping url) Hi) as Hc.
           simpl in Hc. unfold count_jobs in *. simpl in Hu.
           split; [done|]. split; [lia|]. by apply no_failed_insert.
        -- pose proof (count_busy_insert (workers s) i Idle Exited Hi) as Hc.
           simpl in Hc. unfold count_jobs in *. simpl in Hu.
           split; [done|]. split; [lia|]. by apply no_failed_insert.
      * destruct (_playwright_scrape_task _ _ _ _ _) as [[data|e] c].
        -- injection Hstep as <-. right. simpl.
           pose proof (count_busy_insert (workers s) i (Scraping url)
                         (WritingData data) Hi) as Hc.
           simpl in Hc. split; [done|]. split; [lia|]. by apply no_failed_insert.
        -- pose proof (finally_inv num_pages (set_browser c s) i (Scraping url)
                         Hi eq_refl Hm Hu Hf) as Hfin.
           destruct (finally (set_browser c s)) as [w1 s1].
           by injection Hstep as <-.
      * injection Hstep as <-. right. simpl.
        pose proof (count_busy_insert (workers s) i (WritingData data) WritingSep Hi)
          as Hc.
        simpl in Hc. split; [done|]. split; [lia|]. by apply no_failed_insert.
      * pose proof (finally_inv num_pages (write (linesep os_name) s) i WritingSep
                      Hi eq_refl Hm Hu Hf) as Hfin.
        destruct (finally (write (linesep os_name) s)) as [w1 s1].
        by injection Hstep as <-.
Qed.

Lemma exec_join_inv scraper ts kp urls num_pages sched s :
  (0 < num_pages)%Z → join_inv num_pages s →
  join_inv num_pages (exec scraper ts kp urls num_pages sched s).
Proof.
  intros Hpos. revert s. induction sched as [|t sched IH]; intros s Hs; [done|].
  unfold exec in *. simpl. apply IH.
  destruct (pstep scraper ts kp urls num_pages t s) as [s'|] eqn:Hstep; [|done].
  simpl. by eapply pstep_join_inv.
Qed.

(** C3 fails on the code: a worker that takes a stop marker returns without
    calling [task_done], so with at least one page the queue never counts
    fewer unfinished tasks than there are markers, [join] never returns, and
    under every schedule the main task is still before or inside [join]. *)
Theorem playwright_join_never_returns scraper ts kp urls num_pages sched :
  (0 < num_pages)%Z →
  let s := exec scraper ts kp urls num_pages sched pstate0 in
  (main s = MStart ∨ main s = MJoin)
  ∧ (main s = MJoin →
       (Z.to_nat num_pages ≤ unfinished_tasks (jobs s))%nat
       ∧ main_step urls num_pages s = None).
Proof.
  intros Hpos s.
  assert (Hinv : join_inv num_pages s).
  { apply exec_join_inv; [done|by left]. }
  destruct Hinv as [Hs|(Hm & Hu & Hf)].
  - rewrite Hs. split; [by left|]. discriminate.
  - split; [by right|]. intros _. split; [lia|].
    unfold main_step. rewrite Hm, Hf.
    by rewrite bool_decide_false by lia.
Qed.

Lemma pstep_no_page_inv scraper ts kp urls num_pages t s s' :
  (num_pages ≤ 0)%Z → no_page_inv urls s →
  pstep scraper ts kp urls num_pages t s = Some s' → no_page_inv urls s'.
Proof.
  intros Hn (Hw & Hfp & Hstart & Hun & Hpast) Hstep.
  destruct t as [|i]; simpl in Hstep; [|by rewrite Hw in Hstep].
  unfold main_step in Hstep. destruct (main s) eqn:Hm.
  - rewrite (Hstart eq_refl) in Hstep. injection Hstep as <-.
    replace (Z.to_nat num_pages) with 0 by lia. simpl.
    destruct (fold_left_put (map Some urls) {| items := []; unfinished_tasks := 0 |})
      as [_ Hu1].
    rewrite length_map in Hu1. simpl in Hu1.
    unfold no_page_inv. simpl. repeat split; try done.
    intros [|]; discriminate.
  - rewrite Hw in Hstep. simpl in Hstep. rewrite orb_false_r in Hstep.
    case_bool_decide as H0; [|discriminate]. injection Hstep as <-.
    unfold no_page_inv. simpl. repeat split; try done.
    + by intros _; apply Hun.
    + intros _. rewrite Hun in H0 by done. by destruct urls.
  - rewrite Hw in Hstep. simpl in Hstep. rewrite Hfp in Hstep.
    unfold truncate, tell in Hstep. simpl in Hstep.
    pose proof linesep_length as Hsep.
    rewrite bool_decide_true in Hstep by lia. injection Hstep as <-.
    unfold no_page_inv. simpl. repeat split; try done.
    + by intros _; apply Hun.
    + intros _. apply Hpast. by left.
  - discriminate.
Qed.

Lemma exec_no_page_inv scraper ts kp urls num_pages sched s :
  (num_pages ≤ 0)%Z → no_page_inv urls s →
  no_page_inv urls (exec scraper ts kp urls num_pages sched s).
Proof.
  intros Hn. revert s. induction sched as [|t sched IH]; intros s Hs; [done|].
  unfold exec in *. simpl. apply IH.
  destruct (pstep scraper ts kp urls num_pages t s) as [s'|] eqn:Hstep; [|done].
  simpl. by eapply pstep_no_page_inv.
Qed.

(** A page-pool run that gets to its end had no page and no URL, and its
    output file is empty: the guarantee of the result sink holds of it with
    no record at all. *)
Lemma playwright_done_without_jobs scraper ts kp urls num_pages sched :
  main (exec scraper ts kp urls num_pages sched pstate0) = MDone →
  (num_pages ≤ 0)%Z ∧ urls = []
  ∧ fp (exec scraper ts kp urls num_pages sched pstate0) = [].
Proof.
  intros Hdone. destruct (decide (0 < num_pages)%Z) as [Hpos|Hneg].
  - pose proof (exec_join_inv scraper ts kp urls num_pages sched pstate0 Hpos
                  (or_introl eq_refl)) as [Hs|(Hm & _)].
    + rewrite Hs in Hdone. discriminate.
    + rewrite Hm in Hdone. discriminate.
  - assert (H0 : no_page_inv urls pstate0).
    { unfold no_page_inv. simpl. repeat split; try done. intros [|]; discriminate. }
    assert (Hle : (num_pages ≤ 0)%Z) by lia.
    pose proof (exec_no_page_inv scraper ts kp urls num_pages sched pstate0 Hle H0)
      as (_ & Hfp & _ & _ & Hpast).
    split; [lia|]. split; [|done]. apply Hpast. by right.
Qed.

End Engines.

(** * The theorems at concrete runs *)

Example curl_run_mixed :
  _curl_main to_json0 posix kw0 urls0 net_mixed
  = Returned (world_of (_curl_main to_json0 posix kw0 urls0 net_mixed))
  ∧ w_output (world_of (_curl_main to_json0 posix kw0 urls0 net_mixed))
    = Some (list_byte_of_string "http://a.test/").
Proof. split; vm_compute; reflexivity. Qed.

Example curl_run_handles :
  map (λ c, map fst (setopts c))
      (w_handles (world_of (_curl_main to_json0 posix kw0 urls0 net_mixed)))
  = [[URL; WRITEDATA; HEADERFUNCTION]; [URL; WRITEDATA; HEADERFUNCTION]].
Proof. vm_compute. reflexivity. Qed.

Lemma curl_main_output_witness :
  ∃ recs,
    w_output (world_of (_curl_main to_json0 posix kw0 urls0 net_mixed))
      = Some (join_records (linesep posix) recs)
    ∧ written to_json0 kw0 urls0
        (flat_map ok_list
           (w_reads (world_of (_curl_main to_json0 posix kw0 urls0 net_mixed))))
        recs
    ∧ length recs
      = length (flat_map ok_list
                  (w_reads (world_of (_curl_main to_json0 posix kw0 urls0 net_mixed))))
    ∧ recs ≠ [].
Proof.
  apply (curl_main_output to_json0 posix kw0 urls0 net_mixed).
  vm_compute. reflexivity.
Defined.

Lemma curl_main_num_conn_witness :
  _curl_main to_json0 posix
    {| kw_num_conn := 0; kw_strip_data := []; kw_keep_content := [];
       kw_timeout := None; kw_headers := None; kw_user_agent := None;
       kw_proxy := None; kw_cookie_file := None; kw_allow_redirects := true;
       kw_max_redirects := 3; kw_no_ssl := false |} urls0 net_mixed
  = Raised (AssertionError "invalid number of concurrent connections") world0
  ∧ length (w_handles (world_of (_curl_main to_json0 posix kw0 urls0 net_mixed))) = 2.
Proof.
  split.
  - apply (curl_main_num_conn to_json0 posix). simpl. lia.
  - apply (curl_main_num_conn to_json0 posix kw0 urls0 net_mixed). simpl. lia.
Defined.

Lemma curl_main_empty_output_raises_witness :
  ∃ w, _curl_main to_json0 posix kw0 urls0 net_failed = Raised OSError w
       ∧ w_output w = Some [].
Proof.
  assert (Hn : (1 ≤ kw_num_conn kw0 ≤ 10000)%Z) by (simpl; lia).
  assert (Hnet : Forall (λ r, ok_list r = []) net_failed)
    by (repeat constructor).
  pose proof (curl_main_empty_output_raises to_json0 posix kw0 urls0 net_failed
                Hn Hnet) as [_ Hrun].
  destruct (_curl_main to_json0 posix kw0 urls0 net_failed) as [w|e w|w] eqn:Heq.
  - destruct Hrun.
  - destruct Hrun as [-> Hw]. by exists w.
  - vm_compute in Heq. discriminate Heq.
Defined.

Example curl_run_without_urls :
  ∃ w, _curl_main to_json0 posix kw0 [] [] = Raised OSError w
       ∧ w_output w = Some [] ∧ w_handles w = [].
Proof. eexists. split; [vm_compute; reflexivity|]. split; reflexivity. Qed.

Lemma scrape_late_failure_leaks_witness :
  goto env_content_fails = Ok ()
  ∧ (scrape urlparse0 scraper0 "http://a.test/" env_content_fails context0).1
    = Raise PlaywrightError
  ∧ open_pages
      (scrape urlparse0 scraper0 "http://a.test/" env_content_fails context0).2 = 1.
Proof.
  split; [reflexivity|]. split; [reflexivity|].
  apply (scrape_late_failure_leaks urlparse0 scraper0 "http://a.test/"
           env_content_fails context0 PlaywrightError); reflexivity.
Defined.

Example scrape_closes_on_navigation_failure :
  scrape urlparse0 scraper0 "http://a.test/" env_goto_fails context0
  = (Raise PlaywrightError, context0).
Proof. reflexivity. Qed.

Example scrape_ok_records_request :
  ∃ data c, scrape urlparse0 scraper0 "http://a.test/" env_ok context0 = (Ok data, c)
            ∧ open_pages c = 0
            ∧ (length <$> requests_of data) = Some 1.
Proof. eexists _, _. split; [reflexivity|]. split; vm_compute; reflexivity. Qed.

Lemma request_handler_no_response_witness :
  get_response (request0 None) = Ok None
  ∧ request_handler urlparse0 (request0 None) = Raise AttributeError
  ∧ on_requestfinished urlparse0 [req0] (request0 None) = [req0].
Proof.
  destruct (request_handler_no_response urlparse0 (request0 None)) as [Hraise Hdrop].
  - reflexivity.
  - split; [reflexivity|]. split; [exact Hraise|apply Hdrop].
Defined.

Example request_handler_404 :
  ∃ out, request_handler urlparse0 (request0 (Some (response0 404))) = Ok out
         ∧ response out = None ∧ req_cert out = Some ∅.
Proof. eexists. split; [reflexivity|]. split; reflexivity. Qed.

Lemma playwright_join_never_returns_witness :
  let s := exec to_json0 urlparse0 posix browse0 scraper0 [] []
             ["http://a.test/"] 1 sched0 pstate0 in
  (main s = MStart ∨ main s = MJoin)
  ∧ (main s = MJoin →
       (Z.to_nat 1 ≤ unfinished_tasks (jobs s))%nat
       ∧ main_step posix ["http://a.test/"] 1 s = None).
Proof.
  apply (playwright_join_never_returns to_json0 urlparse0 posix browse0 scraper0
           [] [] ["http://a.test/"] 1 sched0).
  lia.
Defined.

(** The run above ends with the worker gone, the queue empty, one task
    counted as unfinished, the record written, and nothing left to move. *)
Example playwright_run_hangs :
  let s := exec to_json0 urlparse0 posix browse0 scraper0 [] []
             ["http://a.test/"] 1 sched0 pstate0 in
  main s = MJoin ∧ workers s = [Exited] ∧ items (jobs s) = []
  ∧ unfinished_tasks (jobs s) = 1
  ∧ fp s = list_byte_of_string "http://a.test/" ++ linesep posix
  ∧ stuck to_json0 urlparse0 posix browse0 scraper0 [] [] ["http://a.test/"] 1 s.
Proof.
  repeat split; try (vm_compute; reflexivity).
  intros [|[|i]]; vm_compute; reflexivity.
Qed.
